(** * Analogue circuit simulator: components and circuits

    A shallow embedding of [project.cpp]: the [components] class hierarchy
    (resistor, capacitor, inductor, diode, transistor) and the [circuit]
    class that aggregates the impedances of registered components in
    series or in parallel.

    The program computes with [double] and [std::complex<double>].  The
    embedding is written once over an interpretation of [double] (class
    [Double]) and is read at two instances:
    - [binary64]: IEEE 754 double precision, through the executable
      specification of the Standard Library ([SpecFloat], precision 53,
      [emax] 1024), with signed zeros, infinities and NaN;
    - [exact]: the real numbers, for the properties the specification
      states over exact arithmetic.

    The division of complex numbers is the library's, not the
    repository's: it is a parameter of the embedding (class [Division]),
    read at binary64 as the compiler's runtime routine and over the reals
    as the defining formula.  *)

From Stdlib Require Import ZArith Reals Lra.
From Stdlib.Floats Require Import SpecFloat.
From stdpp Require Import base option list strings gmap.

Set Default Proof Using "Type".

(** ** The scalar type [double] *)

(** What the program does with a [double]: integer and decimal literals
    (the only non-integer one is [pi]), the four arithmetic operators and
    unary minus, [std::sqrt], and [std::hypot], which [std::abs] of a
    complex number stands for. *)
Class Double (F : Type) : Type := {
  of_int : Z -> F;
  pi : F;
  fadd : F -> F -> F;
  fsub : F -> F -> F;
  fmul : F -> F -> F;
  fdiv : F -> F -> F;
  fopp : F -> F;
  fsqrt : F -> F;
  hypot : F -> F -> F
}.

(** [std::atan2], which [std::arg] of a complex number stands for. *)
Class Atan2 (F : Type) : Type := atan2 : F -> F -> F.

Declare Scope double_scope.
Delimit Scope double_scope with D.
Infix "+" := fadd : double_scope.
Infix "-" := fsub : double_scope.
Infix "*" := fmul : double_scope.
Infix "/" := fdiv : double_scope.
Notation "- x" := (fopp x) : double_scope.

(** ** [std::complex<double>] *)

Record complex (F : Type) : Type := Complex { real : F; imag : F }.
Arguments Complex {F} _ _.
Arguments real {F} _.
Arguments imag {F} _.

(** [operator/] of [std::complex<double>].  Its code belongs to the
    library and the compiler's runtime, not to the repository: the
    program is embedded over any such function. *)
Class Division (F : Type) : Type := cdiv : complex F -> complex F -> complex F.

Section ComplexOps.
Context {F : Type} {D : Double F} {Q : Division F}.
Local Open Scope double_scope.

(** [complex(const T& re = T())], also the conversion from a [double]
    or an [int] in [impedance = resistance] and [total_impedance = 0]. *)
Definition of_real (x : F) : complex F := Complex x (of_int 0).

(** [operator+=]. *)
Definition cadd (x y : complex F) : complex F :=
  Complex (real x + real y) (imag x + imag y).

(** The defining formula of the quotient,
    [(a + bi) / (c + di) = ((ac + bd) + (bc - ad)i) / (c² + d²)]: what
    the division is over exact arithmetic, for a divisor that is not
    zero. *)
Definition cdiv_formula (x y : complex F) : complex F :=
  let n := real y * real y + imag y * imag y in
  Complex ((real x * real y + imag x * imag y) / n)
          ((imag x * real y - real x * imag y) / n).

(** [1.0 / z]: the [double] is converted to a complex number first. *)
Definition recip (z : complex F) : complex F := cdiv (of_real (of_int 1)) z.

(** [std::abs]. *)
Definition cabs (z : complex F) : F := hypot (real z) (imag z).

(** [std::arg]. *)
Definition carg {A : Atan2 F} (z : complex F) : F := atan2 (imag z) (real z).
End ComplexOps.

(** ** IEEE 754 binary64 *)

Definition prec : Z := 53.
Definition emax : Z := 1024.

Abbreviation float := spec_float.
Abbreviation NaN := S754_nan.

(** The literal [3.14159265358979323846] rounds to the double
    [0x400921FB54442D18], which is [7074237752028440 * 2^-51]. *)
Definition b64_pi : float := S754_finite false 7074237752028440 (-51).

(** [std::hypot].  The special cases are those of C11 F.10.4.3: an
    infinite argument gives [+inf] even when the other one is NaN, and
    [hypot(x, ±0)] is [fabs(x)].  Two nonzero finite arguments give the
    square root of the exact sum of squares, rounded once; a platform's
    [libm] may return a neighbouring double there. *)
Definition b64_hypot (x y : float) : float :=
  match x, y with
  | S754_infinity _, _ | _, S754_infinity _ => S754_infinity false
  | S754_nan, _ | _, S754_nan => S754_nan
  | S754_zero _, _ => SFabs y
  | _, S754_zero _ => SFabs x
  | S754_finite _ mx ex, S754_finite _ my ey =>
      let e := Z.min ex ey in
      let ax := Z.shiftl (Zpos mx) (ex - e) in
      let ay := Z.shiftl (Zpos my) (ey - e) in
      match (ax * ax + ay * ay)%Z with
      | Zpos m => SFsqrt prec emax (S754_finite false m (2 * e))
      | _ => S754_nan
      end
  end.

#[export] Instance binary64 : Double float := {|
  of_int z := binary_normalize prec emax z 0 false;
  pi := b64_pi;
  fadd := SFadd prec emax;
  fsub := SFsub prec emax;
  fmul := SFmul prec emax;
  fdiv := SFdiv prec emax;
  fopp := SFopp;
  fsqrt := SFsqrt prec emax;
  hypot := b64_hypot
|}.

(** The cases of [std::atan2] the program can meet without leaving the
    constants the model has: a NaN argument gives NaN, and
    [atan2(±0, x)] is [±0] for [x] positive or [+0] (C11 F.10.1.4).
    Every other case is the platform's, [libm]. *)
Definition b64_atan2 (libm : float -> float -> float) : Atan2 float :=
  fun y x =>
    match y, x with
    | S754_nan, _ | _, S754_nan => S754_nan
    | S754_zero s, (S754_zero false | S754_finite false _ _ | S754_infinity false) =>
        S754_zero s
    | _, _ => libm y x
    end.

(** [x < y] on doubles, false as soon as one side is NaN. *)
Definition b64_lt (x y : float) : Prop := SFltb x y = true.

(** [isnan], [isinf], [isfinite] and [copysign].  A NaN has no sign in
    [SpecFloat]; [nan_sign] is the sign bit [copysign] finds in one. *)
Definition isnan (x : float) : bool :=
  match x with S754_nan => true | _ => false end.
Definition isinf (x : float) : bool :=
  match x with S754_infinity _ => true | _ => false end.
Definition is_finite (x : float) : bool :=
  match x with S754_zero _ | S754_finite _ _ _ => true | _ => false end.
Definition copysign (nan_sign : bool) (x y : float) : float :=
  let s := match y with
           | S754_zero s | S754_infinity s | S754_finite s _ _ => s
           | S754_nan => nan_sign
           end in
  match x with
  | S754_zero _ => S754_zero s
  | S754_infinity _ => S754_infinity s
  | S754_finite _ m e => S754_finite s m e
  | S754_nan => S754_nan
  end.

(** The division of two [double _Complex] values as the compiler's
    runtime computes it ([__divdc3] of libgcc, which [operator/] of
    libstdc++ ends in): Smith's method, one quotient of the divisor's
    parts and no sum of squares, then the recovery of C99 Annex G for a
    result that came out as NaN + NaN j: a nonzero dividend over zero is
    an infinity, an infinite dividend over a finite divisor an infinity,
    a finite dividend over an infinite divisor a zero.  (Recent versions
    of the routine first rescale operands that are near the overflow or
    underflow threshold.) *)
Definition divdc3 (nan_sign : bool) (a b c d : float) : complex float :=
  let zero := S754_zero false in
  let one := binary_normalize prec emax 1 0 false in
  let infinity := S754_infinity false in
  let add := SFadd prec emax in
  let sub := SFsub prec emax in
  let mul := SFmul prec emax in
  let div := SFdiv prec emax in
  let '(x, y) :=
    if SFltb (SFabs c) (SFabs d) then
      let ratio := div c d in
      let denom := add (mul c ratio) d in
      (div (add (mul a ratio) b) denom, div (sub (mul b ratio) a) denom)
    else
      let ratio := div d c in
      let denom := add (mul d ratio) c in
      (div (add (mul b ratio) a) denom, div (sub b (mul a ratio)) denom) in
  if isnan x && isnan y then
    if SFeqb c zero && SFeqb d zero && (negb (isnan a) || negb (isnan b)) then
      Complex (mul (copysign nan_sign infinity c) a)
              (mul (copysign nan_sign infinity c) b)
    else if (isinf a || isinf b) && is_finite c && is_finite d then
      let a' := copysign nan_sign (if isinf a then one else zero) a in
      let b' := copysign nan_sign (if isinf b then one else zero) b in
      Complex (mul infinity (add (mul a' c) (mul b' d)))
              (mul infinity (sub (mul b' c) (mul a' d)))
    else if (isinf c || isinf d) && is_finite a && is_finite b then
      let c' := copysign nan_sign (if isinf c then one else zero) c in
      let d' := copysign nan_sign (if isinf d then one else zero) d in
      Complex (mul zero (add (mul a c') (mul b d')))
              (mul zero (sub (mul b c') (mul a d')))
    else Complex x y
  else Complex x y.

(** On x86-64 the NaN an invalid operation produces has its sign bit
    set. *)
#[export] Instance b64_division : Division float :=
  fun x y => divdc3 true (real x) (imag x) (real y) (imag y).

(** ** Exact arithmetic *)

#[export] Instance exact : Double R := {|
  of_int := IZR;
  pi := 3.14159265358979323846%R;
  fadd := Rplus;
  fsub := Rminus;
  fmul := Rmult;
  fdiv := Rdiv;
  fopp := Ropp;
  fsqrt := sqrt;
  hypot x y := sqrt (x * x + y * y)%R
|}.

(** Over the reals the quotient is the defining formula.  [Rdiv] is
    total and gives [x / 0 = 0], which no program computes: every
    statement over this instance carries the hypotheses that keep its
    divisors from zero. *)
#[export] Instance exact_division : Division R := cdiv_formula.

(** ** How a call ends *)

(** A call returns, or throws (the program's [main] catches
    [std::exception] and prints [what()]), or has no defined behaviour:
    a [circuit] keeps plain pointers to components it does not own, and
    dereferencing one that no longer points to a component is undefined. *)
Variant outcome (A : Type) : Type :=
| Returns (a : A)
| Throws (what : string)
| Undefined.
Arguments Returns {A} _.
Arguments Throws {A} _.
Arguments Undefined {A}.

#[export] Instance outcome_ret : MRet outcome := @Returns.
#[export] Instance outcome_bind : MBind outcome := fun A B f m =>
  match m with
  | Returns a => f a
  | Throws w => Throws w
  | Undefined => Undefined
  end.

(** ** class [components] and the classes derived from it *)

Module components.

(** The data members the derived classes add. *)
Variant derived (F : Type) : Type :=
| Resistor (resistance : F)
| Capacitor (capacitance : F)
| Inductor (inductance : F)
| Diode (capacitance resistance saturation_current : F)
| Transistor (collector_current base_current emitter_current
              collector_emitter_voltage base_emitter_voltage : F).
Arguments Resistor {F} _.
Arguments Capacitor {F} _.
Arguments Inductor {F} _.
Arguments Diode {F} _ _ _.
Arguments Transistor {F} _ _ _ _ _.

(** An object: the protected members of the base class and those of
    its dynamic type. *)
Record t (F : Type) : Type := Build {
  frequency : F;
  impedance : complex F;
  members : derived F
}.
Arguments Build {F} _ _ _.
Arguments frequency {F} _.
Arguments impedance {F} _.
Arguments members {F} _.

Section Methods.
Context {F : Type} {D : Double F} {Q : Division F}.
Local Open Scope double_scope.

(** The constructor of the base class, [components() : frequency(0) {}],
    runs first; [impedance] is value-initialised by [std::complex]. *)
Definition base (m : derived F) : t F :=
  Build (of_int 0) (Complex (of_int 0) (of_int 0)) m.

(** The body of a derived constructor assigns [impedance]. *)
Definition assign_impedance (z : complex F) (c : t F) : t F :=
  Build (frequency c) z (members c).

(** [resistor(double r) : resistance(r) {impedance = resistance;}] *)
Definition resistor (r : F) : t F :=
  assign_impedance (of_real r) (base (Resistor r)).

(** [capacitor(double c)]: the formula of [set_frequency], at the
    frequency the base class has just set. *)
Definition capacitor (c : F) : t F :=
  let this := base (Capacitor c) in
  assign_impedance
    (Complex (of_int 0) ((- of_int 1) / (of_int 2 * pi * frequency this * c)))
    this.

(** [inductor(double l)]:
    [impedance = std::complex<double>(0, 2 * pi * inductance)]. *)
Definition inductor (l : F) : t F :=
  assign_impedance (Complex (of_int 0) (of_int 2 * pi * l)) (base (Inductor l)).

(** [diode(double c, double r, double is)]:
    [impedance = std::complex<double>(0, resistance)]. *)
Definition diode (c r is_ : F) : t F :=
  assign_impedance (Complex (of_int 0) r) (base (Diode c r is_)).

(** [transistor(cc, bc, ec, cev, bev)]. *)
Definition transistor (cc bc ec cev bev : F) : t F :=
  assign_impedance (Complex (cev / cc) (of_int 0))
    (base (Transistor cc bc ec cev bev)).

(** [double j = std::sqrt(-1);] in [diode::set_frequency]. *)
Definition diode_j : F := fsqrt (of_int (-1)).

(** [diode::set_frequency], the value assigned to [impedance];
    [omega_c] is computed there and not used. *)
Definition diode_impedance (capacitance resistance saturation_current f : F)
  : complex F :=
  let omega_s := (saturation_current * resistance) / capacitance in
  let j := diode_j in
  let denom := of_int 1 + (j * of_int 2 * pi * f * capacitance * resistance) in
  Complex (resistance / denom)
          (omega_s / (j * of_int 2 * pi * f * capacitance * denom)).

(** [set_frequency], by the dynamic type of the object. *)
Definition set_frequency (f : F) (c : t F) : t F :=
  match members c with
  | Resistor _ => Build f (impedance c) (members c)
  | Capacitor capacitance =>
      Build f (Complex (of_int 0) ((- of_int 1) / (of_int 2 * pi * f * capacitance)))
            (members c)
  | Inductor inductance =>
      Build f (Complex (of_int 0) (of_int 2 * pi * f * inductance)) (members c)
  | Diode capacitance resistance saturation_current =>
      Build f (diode_impedance capacitance resistance saturation_current f)
            (members c)
  | Transistor _ _ _ _ _ => c
  end.

Definition get_frequency (c : t F) : F :=
  match members c with
  | Transistor _ _ _ _ _ => of_int 0
  | _ => frequency c
  end.

Definition get_impedance (c : t F) : complex F := impedance c.

Definition get_impedance_magnitude (c : t F) : F := cabs (impedance c).

Definition get_phase_difference {A : Atan2 F} (c : t F) : F :=
  match members c with
  | Resistor _ | Diode _ _ _ => carg (impedance c)
  | Capacitor _ => (- pi) / of_int 2
  | Inductor _ => pi / of_int 2
  | Transistor _ _ _ _ _ => of_int 0
  end.

Definition get_type (c : t F) : string :=
  match members c with
  | Resistor _ => "Resistor"
  | Capacitor _ => "Capacitor"
  | Inductor _ => "Inductor"
  | Diode _ _ _ => "Diode"
  | Transistor _ _ _ _ _ => "Transistor"
  end.

End Methods.
End components.

(** ** class [circuit] *)

(** The objects a [components*] can point to: the caller's components,
    by address. *)
Abbreviation ptr := nat.
Abbreviation heap F := (gmap ptr (components.t F)).

Module circuit.

Record t (F : Type) : Type := Build {
  component_list : list ptr;
  total_impedance : complex F;
  frequency : F
}.
Arguments Build {F} _ _ _.
Arguments component_list {F} _.
Arguments total_impedance {F} _.
Arguments frequency {F} _.

Section Methods.
Context {F : Type} {D : Double F} {Q : Division F}.

(** [circuit() : total_impedance(0.0), frequency(0.0) {}] *)
Definition new : t F := Build [] (of_real (of_int 0)) (of_int 0).

(** [component->get_impedance()] through a pointer of [component_list]. *)
Definition deref (h : heap F) (p : ptr) : outcome (components.t F) :=
  match h !! p with
  | Some c => Returns c
  | None => Undefined
  end.

(** The loop of [update_impedance_series], from the running total. *)
Fixpoint series_loop (h : heap F) (ps : list ptr) (total : complex F)
  : outcome (complex F) :=
  match ps with
  | [] => Returns total
  | p :: ps' =>
      c ← deref h p;
      series_loop h ps' (cadd total (components.get_impedance c))
  end.

Definition update_impedance_series (h : heap F) (c : t F) : outcome (t F) :=
  total ← series_loop h (component_list c) (of_real (of_int 0));
  Returns (Build (component_list c) total (frequency c)).

(** The loop of [update_impedance_parallel], from the running total. *)
Fixpoint parallel_loop (h : heap F) (ps : list ptr) (total : complex F)
  : outcome (complex F) :=
  match ps with
  | [] => Returns total
  | p :: ps' =>
      c ← deref h p;
      parallel_loop h ps' (cadd total (recip (components.get_impedance c)))
  end.

Definition update_impedance_parallel (h : heap F) (c : t F) : outcome (t F) :=
  total ← parallel_loop h (component_list c) (of_real (of_int 0));
  Returns (Build (component_list c) (recip total) (frequency c)).

Definition add_component_in_series (h : heap F) (component : ptr) (c : t F)
  : outcome (t F) :=
  update_impedance_series h
    (Build (component_list c ++ [component]) (total_impedance c) (frequency c)).

Definition add_component_in_parallel (h : heap F) (component : ptr) (c : t F)
  : outcome (t F) :=
  update_impedance_parallel h
    (Build (component_list c ++ [component]) (total_impedance c) (frequency c)).

Definition set_frequency (h : heap F) (f : F) (c : t F) : outcome (t F) :=
  c1 ← update_impedance_series h (Build (component_list c) (total_impedance c) f);
  update_impedance_parallel h c1.

Definition get_circuit_impedance (c : t F) : complex F := total_impedance c.

Definition get_total_impedance_magntiude (c : t F) : F :=
  cabs (total_impedance c).

Definition get_phase_difference {A : Atan2 F} (c : t F) : F :=
  carg (total_impedance c).

(** Registering the components of a list one after the other, as [main]
    does for each topology. *)
Fixpoint add_all (add : heap F -> ptr -> t F -> outcome (t F))
  (h : heap F) (ps : list ptr) (c : t F) : outcome (t F) :=
  match ps with
  | [] => Returns c
  | p :: ps' => c' ← add h p c; add_all add h ps' c'
  end.

End Methods.
End circuit.

(** ** [main], the fifth topology: a resistor and a capacitor in series *)

(** The core calls of [main] for [circuit_type == 5], with [&r] the
    address 1 and [&c] the address 2.  The components are registered as
    constructed; their frequency is set afterwards, behind the circuit's
    back, and the circuit reads them again in [set_frequency] and in the
    call of [update_impedance_series] that follows it. *)
Definition rc_in_series {F : Type} {D : Double F} {Q : Division F}
    (freq r_value c_value : F)
  : outcome (circuit.t F) :=
  let r := components.resistor r_value in
  let c := components.capacitor c_value in
  let h0 : heap F := <[1%nat := r]> (<[2%nat := c]> ∅) in
  c1 ← circuit.add_component_in_series h0 1%nat circuit.new;
  c2 ← circuit.add_component_in_series h0 2%nat c1;
  let h1 : heap F :=
    <[2%nat := components.set_frequency freq c]>
      (<[1%nat := components.set_frequency freq r]> h0) in
  c3 ← circuit.set_frequency h1 freq c2;
  circuit.update_impedance_series h1 c3.

(** ** [main]: the eight topologies *)

(** The three components [main] declares, [r], [c] and [l]; each branch
    constructs two or three of them from the values read. *)
Variant part : Type := part_r | part_c | part_l.

#[export] Instance part_eq_dec : EqDecision part.
Proof. solve_decision. Defined.

(** The branch of [circuit_type]: whether it registers with
    [add_component_in_series] (and then ends with a call of
    [update_impedance_series]) or with [add_component_in_parallel], and
    the components in the order of their registration, which is also
    their order in [component_library].  The input loop lets no other
    value than 1 to 8 through. *)
Definition topology (circuit_type : Z) : option (bool * list part) :=
  match circuit_type with
  | 1 => Some (false, [part_r; part_c; part_l])
  | 2 => Some (true, [part_r; part_c; part_l])
  | 3 => Some (true, [part_r; part_l])
  | 4 => Some (false, [part_r; part_l])
  | 5 => Some (true, [part_r; part_c])
  | 6 => Some (false, [part_r; part_c])
  | 7 => Some (true, [part_l; part_c])
  | 8 => Some (false, [part_l; part_c])
  | _ => None
  end%Z.

(** What [main] prints: two numbers for the circuit and, for every
    entry of [component_library], its type and two numbers. *)
Record report (F : Type) : Type := Report {
  total_magnitude : F;
  total_phase : F;
  lines : list (string * F * F)
}.
Arguments Report {F} _ _ _.
Arguments total_magnitude {F} _.
Arguments total_phase {F} _.
Arguments lines {F} _.

Section Main.
Context {F : Type} {D : Double F} {Q : Division F} {A : Atan2 F}.

(** [resistor r(r_value);], [capacitor c(c_value);],
    [inductor l(l_value);]. *)
Definition construct (r_value c_value l_value : F) (p : part) : components.t F :=
  match p with
  | part_r => components.resistor r_value
  | part_c => components.capacitor c_value
  | part_l => components.inductor l_value
  end.

(** [&r], [&c], [&l]. *)
Definition address (p : part) : ptr :=
  match p with part_r => 1%nat | part_c => 2%nat | part_l => 3%nat end.

(** The objects of a branch, as constructed. *)
Definition constructed (r_value c_value l_value : F) (order : list part) : heap F :=
  foldr (fun p h => <[address p := construct r_value c_value l_value p]> h) ∅ order.

(** The core calls of a branch: the components are registered as
    constructed, [set_frequency(freq)] is called on each of them and on
    the circuit, the components are copied into [component_library],
    and the series branches call [update_impedance_series].  The result
    is the circuit and the library as the printing code finds them. *)
Definition core_calls (series : bool) (order : list part)
    (freq r_value c_value l_value : F)
  : outcome (circuit.t F * list (components.t F)) :=
  let h0 := constructed r_value c_value l_value order in
  let add := if series then circuit.add_component_in_series
             else circuit.add_component_in_parallel in
  c1 ← circuit.add_all add h0 (address <$> order) circuit.new;
  let h1 : heap F := components.set_frequency freq <$> h0 in
  c2 ← circuit.set_frequency h1 freq c1;
  let component_library := omap (fun p => h1 !! address p) order in
  c3 ← (if series then circuit.update_impedance_series h1 c2 else Returns c2);
  Returns (c3, component_library).

(** The values the printing code reads. *)
Definition print (result : circuit.t F * list (components.t F)) : report F :=
  Report (circuit.get_total_impedance_magntiude (fst result))
         (circuit.get_phase_difference (fst result))
         ((fun c => (components.get_type c,
                     components.get_impedance_magnitude c,
                     components.get_phase_difference c)) <$> snd result).

(** [main] after the input loops: the report, if a branch is taken. *)
Definition main_core (circuit_type : Z) (freq r_value c_value l_value : F)
  : outcome (option (report F)) :=
  match topology circuit_type with
  | Some (series, order) =>
      result ← core_calls series order freq r_value c_value l_value;
      Returns (Some (print result))
  | None => Returns None
  end.

(** The value [main] returns: 1 from the [catch] block, 0 otherwise. *)
Definition exit_code {B : Type} (o : outcome B) : option Z :=
  match o with
  | Returns _ => Some 0%Z
  | Throws _ => Some 1%Z
  | Undefined => None
  end.

End Main.

(** ** Vocabulary of the statements *)

(** Every pointer of the list points to a component of the heap. *)
Definition valid {F : Type} (h : heap F) (ps : list ptr) : Prop :=
  Forall (fun p => is_Some (h !! p)) ps.

(** The current impedances of the components a list of pointers reaches. *)
Definition impedances {F : Type} (h : heap F) (ps : list ptr) : list (complex F) :=
  omap (fun p => components.get_impedance <$> h !! p) ps.

(** What the two update methods compute from the current impedances:
    the running total starts from [0] and takes the members in the order
    of the list. *)
Definition series_total {F : Type} {D : Double F} (h : heap F) (ps : list ptr)
  : complex F :=
  fold_left cadd (impedances h ps) (of_real (of_int 0)).

Definition parallel_total {F : Type} {D : Double F} {Q : Division F}
    (h : heap F) (ps : list ptr)
  : complex F :=
  recip (fold_left cadd (recip <$> impedances h ps) (of_real (of_int 0))).

(** The sum of a list of complex numbers, and the inverse of a complex
    number, over the reals. *)
Definition csum (zs : list (complex R)) : complex R :=
  Complex (foldr Rplus 0%R (real <$> zs)) (foldr Rplus 0%R (imag <$> zs)).

Definition cmul (x y : complex R) : complex R :=
  Complex (real x * real y - imag x * imag y)%R
          (real x * imag y + imag x * real y)%R.

Definition cinv (z : complex R) : complex R :=
  let n := (real z * real z + imag z * imag z)%R in
  Complex (real z / n)%R (- imag z / n)%R.

(** The reactances of an inductor and of a capacitor at a frequency,
    [2 pi f L] and [1 / (2 pi f C)], and the susceptance [2 pi f C], over
    the reals and with the program's [pi]. *)
Definition X_L (freq l_value : R) : R := (2 * pi * freq * l_value)%R.
Definition X_C (freq c_value : R) : R := (1 / (2 * pi * freq * c_value))%R.
Definition B_C (freq c_value : R) : R := (2 * pi * freq * c_value)%R.

(** A double that is [+0] or [-0], and a complex double equal to zero. *)
Definition is_zero (x : float) : bool :=
  match x with S754_zero _ => true | _ => false end.
Definition czero (z : complex float) : Prop :=
  is_zero (real z) = true /\ is_zero (imag z) = true.

(** The line of the report a component with positive parameter is
    expected to have at a positive frequency. *)
Definition line_of (freq r_value c_value l_value : float) (p : part)
  : string * float * float :=
  match p with
  | part_r => ("Resistor", r_value, S754_zero false)
  | part_c => ("Capacitor",
               fdiv (of_int 1) (fmul (fmul (fmul (of_int 2) pi) freq) c_value),
               fdiv (fopp pi) (of_int 2))
  | part_l => ("Inductor",
               fmul (fmul (fmul (of_int 2) pi) freq) l_value,
               fdiv pi (of_int 2))
  end.


(** A double whose sign bit is clear, or a NaN. *)
Definition nonneg (x : float) : Prop :=
  match x with
  | S754_zero s | S754_infinity s | S754_finite s _ _ => s = false
  | S754_nan => True
  end.

(** ** Concrete configurations *)

(** Two resistors of 1 Ohm, at addresses 1 and 2. *)
Definition two_resistors : heap float :=
  <[1%nat := components.resistor (of_int 1)]>
    (<[2%nat := components.resistor (of_int 1)]> ∅).


(** A resistor of 50 Ohm, and an inductor of 1 Henry whose frequency has
    been set to 0, as the fourth topology of [main] would have them if
    it accepted that frequency. *)
Definition inductor_at_rest : components.t float :=
  components.set_frequency (of_int 0) (components.inductor (of_int 1)).
Definition resistor_and_inductor_at_rest : heap float :=
  <[1%nat := components.resistor (of_int 50)]> (<[2%nat := inductor_at_rest]> ∅).

(** A capacitor of one microfarad, and 1 kHz. *)
Definition microfarad : float := fdiv (of_int 1) (of_int 1000000).
Definition kilohertz : float := of_int 1000.

(** Over the reals: two resistors of 3 Ohm, and a resistor of 3 Ohm
    with an inductor of 1 Henry at 50 Hz. *)
Definition two_resistors_exact : heap R :=
  <[1%nat := components.resistor 3%R]> (<[2%nat := components.resistor 3%R]> ∅).
Definition resistor_and_inductor_exact : heap R :=
  <[1%nat := components.resistor 3%R]>
    (<[2%nat := components.set_frequency 50%R (components.inductor 1%R)]> ∅).

(** * Properties *)

(** ** The aggregation loops, over any arithmetic *)

Lemma bind_Returns {A B : Type} (a : A) (f : A -> outcome B) :
  Returns a ≫= f = f a.
Proof. reflexivity. Qed.

Section Aggregation.
Context {F : Type} {D : Double F} {Q : Division F}.
Implicit Types (h : heap F) (ps : list ptr) (c : circuit.t F).

Lemma impedances_cons_Some h p ps x :
  h !! p = Some x ->
  impedances h (p :: ps) = components.get_impedance x :: impedances h ps.
Proof. intros Hp. unfold impedances. cbn. now rewrite Hp. Qed.

Lemma impedances_app h ps qs :
  impedances h (ps ++ qs) = impedances h ps ++ impedances h qs.
Proof. apply omap_app. Qed.

Lemma elem_of_impedances h ps p x :
  p ∈ ps -> h !! p = Some x -> components.get_impedance x ∈ impedances h ps.
Proof.
  intros Hin Hp. apply list_elem_of_omap. exists p. now rewrite Hp.
Qed.

Lemma valid_app h ps qs : valid h (ps ++ qs) <-> valid h ps /\ valid h qs.
Proof. apply Forall_app. Qed.

Lemma valid_Permutation h ps qs : ps ≡ₚ qs -> valid h ps -> valid h qs.
Proof. intros Hp Hv. unfold valid. now rewrite <- Hp. Qed.

Lemma impedances_Permutation h ps qs :
  ps ≡ₚ qs -> impedances h ps ≡ₚ impedances h qs.
Proof. intros Hp. unfold impedances. now rewrite Hp. Qed.

(** With valid pointers the loop of [update_impedance_series] returns
    the left-to-right sum of the current impedances. *)
Lemma series_loop_valid h ps total :
  valid h ps ->
  circuit.series_loop h ps total = Returns (fold_left cadd (impedances h ps) total).
Proof.
  intros Hv. revert total.
  induction Hv as [|p ps [x Hp] _ IH]; intros total; [reflexivity|].
  rewrite (impedances_cons_Some _ _ _ _ Hp).
  cbn [circuit.series_loop]. unfold circuit.deref. rewrite Hp.
  exact (IH _).
Qed.

(** The loop of [update_impedance_parallel] returns the left-to-right
    sum of the reciprocals. *)
Lemma parallel_loop_valid h ps total :
  valid h ps ->
  circuit.parallel_loop h ps total
  = Returns (fold_left cadd (recip <$> impedances h ps) total).
Proof.
  intros Hv. revert total.
  induction Hv as [|p ps [x Hp] _ IH]; intros total; [reflexivity|].
  rewrite (impedances_cons_Some _ _ _ _ Hp).
  cbn [circuit.parallel_loop]. unfold circuit.deref. rewrite Hp.
  exact (IH _).
Qed.

Lemma update_impedance_series_valid h c :
  valid h (circuit.component_list c) ->
  circuit.update_impedance_series h c
  = Returns (circuit.Build (circuit.component_list c)
               (series_total h (circuit.component_list c)) (circuit.frequency c)).
Proof.
  intros Hv. unfold circuit.update_impedance_series.
  now rewrite (series_loop_valid _ _ _ Hv).
Qed.

Lemma update_impedance_parallel_valid h c :
  valid h (circuit.component_list c) ->
  circuit.update_impedance_parallel h c
  = Returns (circuit.Build (circuit.component_list c)
               (parallel_total h (circuit.component_list c)) (circuit.frequency c)).
Proof.
  intros Hv. unfold circuit.update_impedance_parallel.
  now rewrite (parallel_loop_valid _ _ _ Hv).
Qed.

(** [set_frequency] runs both updates; the one that runs last decides
    the total. *)
Lemma set_frequency_valid h f c :
  valid h (circuit.component_list c) ->
  circuit.set_frequency h f c
  = Returns (circuit.Build (circuit.component_list c)
               (parallel_total h (circuit.component_list c)) f).
Proof.
  intros Hv. unfold circuit.set_frequency.
  rewrite update_impedance_series_valid by exact Hv.
  rewrite bind_Returns.
  now rewrite update_impedance_parallel_valid by exact Hv.
Qed.

(** Registering [ps] one by one, with [update] the total each
    registration ends with. *)
Lemma add_all_valid add (update : heap F -> list ptr -> complex F) h ps c :
  (forall p c', valid h (circuit.component_list c' ++ [p]) ->
     add h p c' = Returns (circuit.Build (circuit.component_list c' ++ [p])
                             (update h (circuit.component_list c' ++ [p]))
                             (circuit.frequency c'))) ->
  valid h (circuit.component_list c ++ ps) ->
  ps <> [] ->
  circuit.add_all add h ps c
  = Returns (circuit.Build (circuit.component_list c ++ ps)
               (update h (circuit.component_list c ++ ps)) (circuit.frequency c)).
Proof.
  intros Hadd. revert c.
  induction ps as [|p ps IH]; intros c Hv Hne; [congruence|].
  cbn [circuit.add_all].
  assert (Hv1 : valid h (circuit.component_list c ++ [p])).
  { rewrite cons_middle, app_assoc in Hv. now apply valid_app in Hv. }
  rewrite (Hadd p c Hv1), bind_Returns.
  destruct ps as [|q ps]; [reflexivity|].
  rewrite IH; cbn [circuit.component_list circuit.frequency].
  - now rewrite <- app_assoc.
  - now rewrite <- app_assoc.
  - discriminate.
Qed.

Lemma add_all_series_new h ps :
  valid h ps ->
  circuit.add_all circuit.add_component_in_series h ps circuit.new
  = Returns (circuit.Build ps (series_total h ps) (of_int 0)).
Proof.
  intros Hv. destruct ps as [|p ps]; [reflexivity|].
  rewrite (add_all_valid _ series_total); [reflexivity| |exact Hv|discriminate].
  intros q c' Hq. unfold circuit.add_component_in_series.
  now rewrite update_impedance_series_valid.
Qed.

Lemma add_all_parallel_new h ps :
  valid h ps -> ps <> [] ->
  circuit.add_all circuit.add_component_in_parallel h ps circuit.new
  = Returns (circuit.Build ps (parallel_total h ps) (of_int 0)).
Proof.
  intros Hv Hne.
  rewrite (add_all_valid _ parallel_total); [reflexivity| |exact Hv|exact Hne].
  intros q c' Hq. unfold circuit.add_component_in_parallel.
  now rewrite update_impedance_parallel_valid.
Qed.

End Aggregation.

(** ** Series and parallel combination over exact arithmetic *)

Section Exact.
Implicit Types (h : heap R) (z : complex R) (zs : list (complex R)).
Local Open Scope R_scope.

Lemma complex_eq z1 z2 : real z1 = real z2 -> imag z1 = imag z2 -> z1 = z2.
Proof. destruct z1, z2; cbn; intros; subst; reflexivity. Qed.

Lemma csum_cons z zs : csum (z :: zs) = cadd z (csum zs).
Proof. reflexivity. Qed.

Lemma fold_left_cadd_exact zs acc : fold_left cadd zs acc = cadd acc (csum zs).
Proof.
  revert acc. induction zs as [|z zs IH]; intros acc.
  - apply complex_eq; cbn; lra.
  - cbn [fold_left]. rewrite IH, csum_cons. apply complex_eq; cbn; lra.
Qed.

Lemma csum_Permutation zs zs' : zs ≡ₚ zs' -> csum zs = csum zs'.
Proof.
  induction 1 as [|z zs zs' _ IH|z1 z2 zs|zs1 zs2 zs3 _ IH1 _ IH2].
  - reflexivity.
  - now rewrite !csum_cons, IH.
  - rewrite !csum_cons. apply complex_eq; cbn; lra.
  - congruence.
Qed.

Lemma series_total_exact h ps : series_total h ps = csum (impedances h ps).
Proof.
  unfold series_total. rewrite fold_left_cadd_exact.
  apply complex_eq; cbn; lra.
Qed.

(** [1.0 / z] is the inverse of [z]. *)
Lemma recip_exact z : recip z = cinv z.
Proof. apply complex_eq; cbn; unfold Rdiv; ring. Qed.

Lemma norm_nonzero z :
  z <> Complex 0 0 -> real z * real z + imag z * imag z <> 0.
Proof.
  intros Hz Hn. apply Hz. apply complex_eq; cbn; nra.
Qed.

Lemma cinv_spec z : z <> Complex 0 0 -> cmul z (cinv z) = Complex 1 0.
Proof.
  intros Hz. pose proof (norm_nonzero z Hz) as Hn.
  apply complex_eq; cbn; field; exact Hn.
Qed.

Lemma parallel_total_exact h ps :
  parallel_total h ps = cinv (csum (cinv <$> impedances h ps)).
Proof.
  unfold parallel_total. rewrite recip_exact, fold_left_cadd_exact. f_equal.
  replace (recip <$> impedances h ps) with (cinv <$> impedances h ps).
  - apply complex_eq; cbn; lra.
  - apply list_fmap_ext. intros _ z _. symmetry. apply recip_exact.
Qed.


(** C2. Over exact arithmetic, registering any list of components with
    [add_component_in_series] leaves the circuit with a total impedance
    equal to the complex sum of the components' impedances, and
    registering the same components in any other order gives the same
    total. *)
Theorem series_total_is_sum h ps :
  valid h ps ->
  exists c,
    circuit.add_all circuit.add_component_in_series h ps circuit.new = Returns c
    /\ circuit.get_circuit_impedance c = csum (impedances h ps)
    /\ forall ps', ps ≡ₚ ps' ->
       exists c',
         circuit.add_all circuit.add_component_in_series h ps' circuit.new
         = Returns c'
         /\ circuit.get_circuit_impedance c' = circuit.get_circuit_impedance c.
Proof.
  intros Hv. eexists. split; [apply add_all_series_new, Hv|].
  split; [apply series_total_exact|].
  intros ps' Hp. eexists. split.
  - apply add_all_series_new. exact (valid_Permutation _ _ _ Hp Hv).
  - cbn. rewrite !series_total_exact. apply csum_Permutation.
    symmetry. now apply impedances_Permutation.
Qed.


End Exact.

(** ** Components, over any arithmetic *)

Section Components.
Context {F : Type} {D : Double F} {Q : Division F} {A : Atan2 F}.
Implicit Types (c : components.t F) (f : F).

Lemma set_frequency_members f c :
  components.members (components.set_frequency f c) = components.members c.
Proof. destruct c as [f0 z0 []]; reflexivity. Qed.

(** What [set_frequency] leaves behind depends on the last frequency
    only. *)
Lemma set_frequency_twice f1 f2 c :
  components.set_frequency f2 (components.set_frequency f1 c)
  = components.set_frequency f2 c.
Proof.
  destruct c as [f0 z0 []]; reflexivity.
Qed.

(** The impedance an [inductor] is constructed with. *)
Lemma inductor_constructed l :
  components.get_impedance (components.inductor l)
  = Complex (of_int 0) (of_int 2 * pi * l)%D.
Proof. reflexivity. Qed.

(** C9. For every component and all frequencies [f1], [f2],
    [set_frequency(f1)] followed by [set_frequency(f2)] leaves the same
    impedance, and the same object altogether, as [set_frequency(f2)]
    alone; in particular on each freshly constructed variant. *)
Theorem set_frequency_round_trip f1 f2 c :
  components.get_impedance
    (components.set_frequency f2 (components.set_frequency f1 c))
  = components.get_impedance (components.set_frequency f2 c)
  /\ components.set_frequency f2 (components.set_frequency f1 c)
     = components.set_frequency f2 c.
Proof.
  destruct c as [f0 z0 m]. destruct m as [r|cap|l|cap r i_s|cc bc ec cev bev].
  - (* resistor: the impedance is never assigned again *)
    split; reflexivity.
  - (* capacitor: assigned from [f2] and the capacitance *)
    split; reflexivity.
  - (* inductor: assigned from [f2] and the inductance *)
    split; reflexivity.
  - (* diode: assigned from [f2] and the three parameters *)
    split; reflexivity.
  - (* transistor: both calls do nothing *)
    split; reflexivity.
Qed.

(** C10. On a transistor [set_frequency] changes nothing, however often
    it is called: the impedance stays the real number
    [collector_emitter_voltage / collector_current] of the constructor,
    [get_phase_difference] returns 0 and [get_frequency] returns 0. *)
Theorem transistor_set_frequency_frame (cc bc ec cev bev : F) (fs : list F) :
  let t0 := components.transistor cc bc ec cev bev in
  let t1 := foldr components.set_frequency t0 fs in
  t1 = t0
  /\ components.get_impedance t1 = Complex (cev / cc)%D (of_int 0)
  /\ components.get_phase_difference t1 = of_int 0
  /\ components.get_frequency t1 = of_int 0.
Proof.
  intros t0 t1.
  assert (Heq : t1 = t0).
  { subst t1. induction fs as [|f fs IH]; [reflexivity|].
    cbn [foldr]. now rewrite IH. }
  rewrite Heq. repeat split.
Qed.

End Components.

(** ** Binary64: special values *)

Section Binary64.
Implicit Types (x y : float) (z : complex float) (h : heap float).
Local Open Scope double_scope.

Lemma b64_zero : (of_int 0 : float) = S754_zero false.
Proof. reflexivity. Qed.

Lemma b64_one : (of_int 1 : float) = S754_finite false 4503599627370496 (-52).
Proof. reflexivity. Qed.

Lemma b64_two_pi :
  (of_int 2 * pi : float) = S754_finite false 7074237752028440 (-50).
Proof. reflexivity. Qed.

(** [std::sqrt(-1)] is NaN. *)
Lemma diode_j_nan : (components.diode_j : float) = NaN.
Proof. reflexivity. Qed.

(** NaN is absorbing. *)
Lemma mul_nan_l x : NaN * x = NaN.
Proof. reflexivity. Qed.
Lemma mul_nan_r x : x * NaN = NaN.
Proof. now destruct x. Qed.
Lemma add_nan_l x : NaN + x = NaN.
Proof. reflexivity. Qed.
Lemma add_nan_r x : x + NaN = NaN.
Proof. now destruct x. Qed.
Lemma sub_nan_l x : NaN - x = NaN.
Proof. reflexivity. Qed.
Lemma sub_nan_r x : x - NaN = NaN.
Proof. now destruct x. Qed.
Lemma div_nan_l x : NaN / x = NaN.
Proof. reflexivity. Qed.
Lemma div_nan_r x : x / NaN = NaN.
Proof. now destruct x. Qed.

Create Rewrite HintDb nan.
#[local] Hint Rewrite mul_nan_l mul_nan_r add_nan_l add_nan_r sub_nan_l sub_nan_r
  div_nan_l div_nan_r diode_j_nan : nan.

Lemma diode_impedance_nan (capacitance resistance saturation_current f : float) :
  components.diode_impedance capacitance resistance saturation_current f
  = Complex NaN NaN.
Proof.
  unfold components.diode_impedance. autorewrite with nan. reflexivity.
Qed.

Lemma cadd_nan_l z : cadd (Complex NaN NaN) z = Complex NaN NaN.
Proof. reflexivity. Qed.

Lemma cadd_nan_r z : cadd z (Complex NaN NaN) = Complex NaN NaN.
Proof. unfold cadd. cbn [real imag]. now autorewrite with nan. Qed.

Lemma recip_nan : recip (Complex NaN NaN) = Complex NaN NaN.
Proof. reflexivity. Qed.

(** [1.0 / z] for [z] a zero of either sign in both parts: an infinity
    with the sign of the real part, and NaN. *)
Lemma recip_czero z :
  czero z -> exists s, recip z = Complex (S754_infinity s) NaN.
Proof.
  destruct z as [[s| | |] [s'| | |]]; intros [Hr Hi]; try discriminate.
  exists s. now destruct s, s'.
Qed.

(** [1.0 / (inf + NaN j)] is recovered as [0 + 0j], whatever sign the
    NaN is read with. *)
Lemma recip_infinity_nan (nan_sign : bool) :
  divdc3 nan_sign (of_int 1) (of_int 0) (S754_infinity false) NaN
  = Complex (S754_zero false) (S754_zero false).
Proof. now destruct nan_sign. Qed.

Lemma fold_left_cadd_from_nan (ws : list (complex float)) :
  fold_left cadd ws (Complex NaN NaN) = Complex NaN NaN.
Proof. induction ws as [|w ws IH]; [reflexivity|]. cbn [fold_left]. now rewrite cadd_nan_l. Qed.

Lemma fold_left_cadd_nan (ws : list (complex float)) acc :
  Complex NaN NaN ∈ ws -> fold_left cadd ws acc = Complex NaN NaN.
Proof.
  revert acc. induction ws as [|w ws IH]; intros acc Hin.
  - now apply elem_of_nil in Hin.
  - cbn [fold_left]. apply elem_of_cons in Hin as [<-|Hin].
    + rewrite cadd_nan_r. apply fold_left_cadd_from_nan.
    + now apply IH.
Qed.

(** Rounding does not look at the sign. *)
Lemma binary_round_aux_nonneg m e l :
  nonneg (binary_round_aux prec emax false m e l).
Proof.
  unfold binary_round_aux.
  destruct (shr_fexp _ _ m e l) as [mrs e'].
  destruct (shr_fexp _ _ _ e' loc_Exact) as [mrs' e''].
  destruct (shr_m mrs'); [reflexivity| |exact I].
  now destruct (Z.leb _ _).
Qed.

Lemma SFabs_binary_round_aux s m e l :
  SFabs (binary_round_aux prec emax s m e l) = binary_round_aux prec emax false m e l.
Proof.
  unfold binary_round_aux.
  destruct (shr_fexp _ _ m e l) as [mrs e'].
  destruct (shr_fexp _ _ _ e' loc_Exact) as [mrs' e''].
  destruct (shr_m mrs'); [reflexivity| |reflexivity].
  now destruct (Z.leb _ _).
Qed.

Lemma b64_lt_zero_nonneg x : b64_lt (of_int 0) x -> nonneg x.
Proof. destruct x as [s|s| |s m e]; try destruct s; now cbn. Qed.

Lemma mul_nonneg x y : nonneg x -> nonneg y -> nonneg (x * y).
Proof.
  destruct x as [sx|sx| |sx mx ex], y as [sy|sy| |sy my ey];
    unfold nonneg at 1 2; intros Hx Hy; subst; try exact I; try reflexivity.
  apply binary_round_aux_nonneg.
Qed.

(** [|-1.0 / x|] is [1.0 / x] when the sign bit of [x] is clear. *)
Lemma abs_neg_recip x :
  nonneg x -> SFabs ((- of_int 1) / x) = of_int 1 / x.
Proof.
  rewrite b64_one.
  destruct x as [s|s| |s m e]; unfold nonneg; intros Hx; subst; try reflexivity.
  cbn [fopp fdiv binary64 SFopp negb SFdiv xorb].
  destruct (SFdiv_core_binary _ _ _ _ _ _) as [[mz ez] lz].
  apply SFabs_binary_round_aux.
Qed.

Lemma hypot_zero_l s x : hypot (S754_zero s) x = SFabs x.
Proof. now destruct x. Qed.

End Binary64.

(** ** Binary64: the components *)

Section Binary64Components.
Implicit Types (x y f : float) (z : complex float).
Local Open Scope double_scope.

(** C5. For every capacitor with capacitance [C > 0], after
    [set_frequency(f)] with [f > 0], [get_impedance_magnitude()] is
    [1 / (2 * pi * f * C)] and [get_phase_difference()] is [-pi / 2],
    both as the doubles these expressions evaluate to. *)
Theorem capacitor_magnitude_and_phase (A : Atan2 float) f0 z0 C f :
  b64_lt (of_int 0) C ->
  b64_lt (of_int 0) f ->
  let c := components.set_frequency f (components.Build f0 z0 (components.Capacitor C)) in
  components.get_impedance_magnitude c = of_int 1 / (of_int 2 * pi * f * C)
  /\ components.get_phase_difference c = (- pi) / of_int 2.
Proof.
  intros HC Hf c. split; [|reflexivity].
  unfold components.get_impedance_magnitude, cabs.
  cbn [c components.set_frequency components.members components.impedance real imag].
  rewrite b64_zero, hypot_zero_l. apply abs_neg_recip.
  apply mul_nonneg; [apply mul_nonneg|]; auto using b64_lt_zero_nonneg.
  now rewrite b64_two_pi.
Qed.

Lemma capacitor_magnitude_and_phase_witness :
  let c := components.set_frequency kilohertz (components.capacitor microfarad) in
  components.get_impedance_magnitude c
    = of_int 1 / (of_int 2 * pi * kilohertz * microfarad)
  /\ components.get_phase_difference (A := b64_atan2 (fun _ _ => NaN)) c
    = (- pi) / of_int 2.
Proof.
  apply (capacitor_magnitude_and_phase (b64_atan2 (fun _ _ => NaN))
           (of_int 0) _ microfarad kilohertz); reflexivity.
Defined.

(** C6. For every diode and every frequency, [set_frequency] computes
    [j] as NaN, stores an impedance whose real and imaginary parts are
    NaN, and afterwards [get_impedance_magnitude()] and
    [get_phase_difference()] return NaN. *)
Theorem diode_impedance_is_nan (libm : float -> float -> float) f0 z0
    (capacitance resistance saturation_current f : float) :
  let d := components.set_frequency f
             (components.Build f0 z0
                (components.Diode capacitance resistance saturation_current)) in
  (components.diode_j : float) = NaN
  /\ components.get_impedance d = Complex NaN NaN
  /\ components.get_impedance_magnitude d = NaN
  /\ components.get_phase_difference (A := b64_atan2 libm) d = NaN.
Proof.
  intros d. subst d.
  cbn [components.set_frequency components.members].
  rewrite diode_impedance_nan. repeat split.
Qed.

(** C7, on the code: an inductor of 1 Henry reports, before any
    [set_frequency], the frequency 0 and the impedance [0 + j 2 pi],
    not the [0 + 0j] that [set_frequency(0)] computes. *)
Theorem inductor_constructed_impedance_not_zero :
  let l := components.inductor (of_int 1 : float) in
  components.get_frequency l = S754_zero false
  /\ components.get_impedance l = Complex (S754_zero false) (of_int 2 * pi)
  /\ components.get_impedance (components.set_frequency (components.get_frequency l) l)
     = Complex (S754_zero false) (S754_zero false)
  /\ components.get_impedance l <> Complex (S754_zero false) (S754_zero false).
Proof. repeat split. discriminate. Qed.

End Binary64Components.

(** ** Binary64: the circuit *)

Section Binary64Circuit.
Implicit Types (h : heap float) (c : circuit.t float).
Local Open Scope double_scope.

(** C4, as the code has it.  A parallel combination that includes a
    component whose impedance is exactly zero raises nothing: with valid
    pointers [update_impedance_parallel] returns, and throws no
    exception; the reciprocal of the zero impedance is computed
    silently, as an infinity and a NaN. *)
Theorem parallel_zero_member_raises_nothing h c p x :
  valid h (circuit.component_list c) ->
  p ∈ circuit.component_list c ->
  h !! p = Some x ->
  czero (components.get_impedance x) ->
  (exists c', circuit.update_impedance_parallel h c = Returns c')
  /\ (forall what, circuit.update_impedance_parallel h c <> Throws what)
  /\ exists s, recip (components.get_impedance x) = Complex (S754_infinity s) NaN.
Proof.
  intros Hv Hin Hp Hz.
  pose proof (update_impedance_parallel_valid h c Hv) as Hrun.
  split; [eexists; exact Hrun|]. split.
  - intros what Hw. rewrite Hrun in Hw. discriminate Hw.
  - exact (recip_czero _ Hz).
Qed.

Lemma parallel_zero_member_raises_nothing_witness :
  (exists c',
     circuit.update_impedance_parallel resistor_and_inductor_at_rest
       (circuit.Build [1%nat; 2%nat] (of_real (of_int 0)) (of_int 0))
     = Returns c')
  /\ (forall what,
       circuit.update_impedance_parallel resistor_and_inductor_at_rest
         (circuit.Build [1%nat; 2%nat] (of_real (of_int 0)) (of_int 0))
       <> Throws what)
  /\ exists s,
       recip (components.get_impedance inductor_at_rest)
       = Complex (S754_infinity s) NaN.
Proof.
  apply (parallel_zero_member_raises_nothing resistor_and_inductor_at_rest
           (circuit.Build [1%nat; 2%nat] (of_real (of_int 0)) (of_int 0))
           2%nat inductor_at_rest).
  - repeat constructor; eexists; reflexivity.
  - repeat constructor.
  - reflexivity.
  - split; reflexivity.
Defined.

(** C4, as stated, fails: an inductor whose frequency is 0 has the
    impedance [0 + 0j]; registering it in parallel with a resistor of
    50 Ohm returns and throws nothing.  Its reciprocal is [inf + NaN j],
    so is the sum of the reciprocals, and the total stored is
    [0 + 0j]. *)
Lemma parallel_inductor_at_rest_does_not_raise :
  czero (components.get_impedance inductor_at_rest)
  /\ recip (components.get_impedance inductor_at_rest)
     = Complex (S754_infinity false) NaN
  /\ circuit.add_all circuit.add_component_in_parallel
       resistor_and_inductor_at_rest [1%nat; 2%nat] circuit.new
     = Returns (circuit.Build [1%nat; 2%nat]
                  (Complex (S754_zero false) (S754_zero false)) (of_int 0))
  /\ ~ exists what,
       circuit.add_all circuit.add_component_in_parallel
         resistor_and_inductor_at_rest [1%nat; 2%nat] circuit.new
       = Throws what.
Proof.
  split; [split; reflexivity|]. split; [reflexivity|].
  assert (Hrun : circuit.add_all circuit.add_component_in_parallel
            resistor_and_inductor_at_rest [1%nat; 2%nat] circuit.new
          = Returns (circuit.Build [1%nat; 2%nat]
                       (Complex (S754_zero false) (S754_zero false)) (of_int 0)))
    by (vm_compute; reflexivity).
  split; [exact Hrun|]. rewrite Hrun. intros [what Hw]. discriminate Hw.
Qed.


(** C1, on the code: two resistors of 1 Ohm registered in series give
    the total 2 Ohm, the sum; after [set_frequency] the cached total is
    0.5 Ohm, their parallel combination. *)
Theorem series_circuit_set_frequency_total :
  circuit.add_all circuit.add_component_in_series two_resistors [1%nat; 2%nat]
    circuit.new
  = Returns (circuit.Build [1%nat; 2%nat] (of_real (of_int 2)) (of_int 0))
  /\ series_total two_resistors [1%nat; 2%nat] = of_real (of_int 2)
  /\ circuit.set_frequency two_resistors kilohertz
       (circuit.Build [1%nat; 2%nat] (of_real (of_int 2)) (of_int 0))
     = Returns (circuit.Build [1%nat; 2%nat] (of_real (of_int 1 / of_int 2))
                  kilohertz).
Proof. repeat split; vm_compute; reflexivity. Qed.

(** C8, on the code: a circuit without components has the total
    [0 + 0j], of magnitude 0 and phase 0, when constructed;
    [set_frequency] replaces it by [1.0 / (0 + 0j)], which is
    [inf + NaN j], of magnitude [+inf]: not the zero aggregate. *)
Theorem empty_circuit_set_frequency (libm : float -> float -> float) h f :
  circuit.get_circuit_impedance (circuit.new (F := float))
  = Complex (S754_zero false) (S754_zero false)
  /\ circuit.get_total_impedance_magntiude (circuit.new (F := float))
     = S754_zero false
  /\ circuit.get_phase_difference (A := b64_atan2 libm) circuit.new
     = S754_zero false
  /\ circuit.set_frequency h f circuit.new
     = Returns (circuit.Build [] (Complex (S754_infinity false) NaN) f)
  /\ circuit.get_total_impedance_magntiude
       (circuit.Build [] (Complex (S754_infinity false) NaN) f)
     = S754_infinity false
  /\ Complex (S754_infinity false) NaN
     <> circuit.get_circuit_impedance (circuit.new (F := float)).
Proof. repeat split. discriminate. Qed.

End Binary64Circuit.

(** ** Cross-checks *)

(** [b64_pi] is within half a unit in the last place of the literal
    [3.14159265358979323846] of the source. *)
Lemma b64_pi_nearest :
  b64_pi = S754_finite false 7074237752028440 (-51)
  /\ valid_binary prec emax b64_pi = true
  /\ (2 * Z.abs (7074237752028440 * 10 ^ 20 - 314159265358979323846 * 2 ^ 51)
      <= 10 ^ 20)%Z.
Proof. repeat split. vm_compute. discriminate. Qed.

(** The capacitor's magnitude over the reals. *)
Lemma capacitor_magnitude_exact (f0 : R) (z0 : complex R) (C f : R) :
  (0 < C)%R -> (0 < f)%R ->
  components.get_impedance_magnitude
    (components.set_frequency f (components.Build f0 z0 (components.Capacitor C)))
  = (1 / (2 * pi * f * C))%R.
Proof.
  intros HC Hf. cbn.
  assert (Hpi : (0 < 3.14159265358979323846)%R) by lra.
  set (x := (2 * 3.14159265358979323846 * f * C)%R).
  assert (Hx : (0 < x)%R).
  { subst x. apply Rmult_lt_0_compat; [apply Rmult_lt_0_compat|]; lra. }
  replace (0 * 0 + - (1) / x * (- (1) / x))%R with (Rsqr (1 / x))
    by (unfold Rsqr; field; lra).
  apply sqrt_Rsqr. apply Rlt_le, Rdiv_lt_0_compat; lra.
Qed.

(** The first scenario of the specification: 100 Ohm and one microfarad
    in series at 1 kHz give [100 - 159.15...j] Ohm, of magnitude
    [187.9...] Ohm. *)
Example rc_in_series_scenario :
  exists c,
    rc_in_series kilohertz (of_int 100) microfarad = Returns c
    /\ real (circuit.get_circuit_impedance c) = of_int 100
    /\ b64_lt (fdiv (of_int (-15916)) (of_int 100))
              (imag (circuit.get_circuit_impedance c))
    /\ b64_lt (imag (circuit.get_circuit_impedance c))
              (fdiv (of_int (-15915)) (of_int 100))
    /\ b64_lt (fdiv (of_int 1879) (of_int 10))
              (circuit.get_total_impedance_magntiude c)
    /\ b64_lt (circuit.get_total_impedance_magntiude c)
              (fdiv (of_int 1880) (of_int 10)).
Proof.
  eexists. split; [vm_compute; reflexivity|]. repeat split.
Qed.

(** Without the last call of [update_impedance_series], [main] would
    print the parallel combination. *)
Example rc_in_series_after_set_frequency :
  let h : heap float :=
    <[2%nat := components.set_frequency kilohertz (components.capacitor microfarad)]>
      (<[1%nat := components.set_frequency kilohertz (components.resistor (of_int 100))]> ∅) in
  exists c,
    circuit.set_frequency h kilohertz
      (circuit.Build [1%nat; 2%nat] (of_real (of_int 0)) (of_int 0)) = Returns c
    /\ b64_lt (of_int 71) (real (circuit.get_circuit_impedance c))
    /\ b64_lt (real (circuit.get_circuit_impedance c)) (of_int 72).
Proof.
  eexists. split; [vm_compute; reflexivity|]. split; reflexivity.
Qed.

(** In binary64 two equal resistors in parallel give half of one of
    them when the divisions are exact, and a neighbouring double when
    they are not. *)
Example parallel_pair_binary64 :
  parallel_total two_resistors [1%nat; 2%nat] = of_real (fdiv (of_int 1) (of_int 2))
  /\ recip (cadd (recip (of_real (of_int 49))) (recip (of_real (of_int 49))))
     = Complex (S754_finite false 6896136929411073 (-48)) (S754_zero false)
  /\ fdiv (of_int 49) (of_int 2) = S754_finite false 6896136929411072 (-48).
Proof. repeat split; vm_compute; reflexivity. Qed.

(** The runtime's division on the inputs where the defining formula
    would differ: [1 / (1 / 5)] is 5, and the parallel branch of [main]
    for a resistor of 100 Ohm and a capacitance of 0, whose impedance is
    infinite, prints 100 Ohm. *)
Example division_cross_checks :
  recip (recip (of_real (of_int 5 : float))) = of_real (of_int 5)
  /\ recip (of_real (of_int 0 : float)) = Complex (S754_infinity false) NaN
  /\ recip (Complex (S754_infinity false) NaN)
     = Complex (S754_zero false) (S754_zero false)
  /\ (total_magnitude <$>
        match main_core (A := b64_atan2 (fun _ _ => NaN)) 6 kilohertz
                (of_int 100) (of_int 0) (of_int 1) with
        | Returns rep => rep
        | _ => None
        end) = Some (of_int 100).
Proof. repeat split; vm_compute; reflexivity. Qed.

(** ** Instances over the reals *)

Lemma series_total_is_sum_witness :
  exists c,
    circuit.add_all circuit.add_component_in_series resistor_and_inductor_exact
      [1%nat; 2%nat] circuit.new = Returns c
    /\ circuit.get_circuit_impedance c
       = csum (impedances resistor_and_inductor_exact [1%nat; 2%nat])
    /\ forall ps', [1%nat; 2%nat] ≡ₚ ps' ->
       exists c',
         circuit.add_all circuit.add_component_in_series
           resistor_and_inductor_exact ps' circuit.new = Returns c'
         /\ circuit.get_circuit_impedance c' = circuit.get_circuit_impedance c.
Proof.
  apply (series_total_is_sum resistor_and_inductor_exact [1%nat; 2%nat]).
  repeat constructor; eexists; reflexivity.
Defined.


(** * Further properties of the code *)

(** ** Components, over any arithmetic *)

Section MoreComponents.
Context {F : Type} {D : Double F} {Q : Division F}.
Implicit Types (c : components.t F) (f : F).

(** X1. [get_frequency] after [set_frequency(f)] returns [f] for every
    variant but the transistor, which returns 0; [set_frequency] changes
    neither the parameters nor the type of the object. *)
Theorem get_frequency_set_frequency f c :
  components.get_frequency (components.set_frequency f c)
  = match components.members c with
    | components.Transistor _ _ _ _ _ => of_int 0
    | _ => f
    end
  /\ components.members (components.set_frequency f c) = components.members c
  /\ components.get_type (components.set_frequency f c) = components.get_type c.
Proof.
  destruct c as [f0 z0 m].
  destruct m as [r|cap|l|cap r i_s|cc bc ec cev bev]; repeat split.
Qed.

Lemma resistor_history (r : F) (fs : list F) :
  components.members (foldr components.set_frequency (components.resistor r) fs)
  = components.Resistor r
  /\ components.impedance (foldr components.set_frequency (components.resistor r) fs)
     = of_real r.
Proof.
  induction fs as [|f fs [IHm IHz]]; [split; reflexivity|].
  cbn [fold_right].
  destruct (foldr components.set_frequency (components.resistor r) fs)
    as [f0 z0 m].
  cbn in IHm, IHz. subst m z0. split; reflexivity.
Qed.

(** X2. The impedance of a resistor is [resistance + 0j] whatever calls
    of [set_frequency] it has received, and its [get_frequency] is the
    frequency of the last call. *)
Theorem resistor_frequency_invariance (r : F) (fs : list F) (f : F) :
  let c := foldr components.set_frequency (components.resistor r) (f :: fs) in
  components.get_impedance (components.resistor r) = of_real r
  /\ components.get_impedance c = of_real r
  /\ components.get_frequency c = f.
Proof.
  intros c. destruct (resistor_history r fs) as [Hm Hz].
  split; [reflexivity|]. subst c. cbn [fold_right].
  destruct (foldr components.set_frequency (components.resistor r) fs)
    as [f0 z0 m].
  cbn in Hm, Hz. subst m z0. split; reflexivity.
Qed.

(** A capacitor is constructed in the state [set_frequency(0)] leaves
    it in: its constructor evaluates the formula of [set_frequency] at
    the frequency 0 of the base class. *)
Lemma capacitor_constructed_at_zero (cap : F) :
  components.capacitor cap
  = components.set_frequency (of_int 0) (components.capacitor cap)
  /\ components.get_frequency (components.capacitor cap) = of_int 0.
Proof. split; reflexivity. Qed.

End MoreComponents.

(** ** The circuit, over any arithmetic *)

Section MoreCircuit.
Context {F : Type} {D : Double F} {Q : Division F}.
Implicit Types (h : heap F) (ps : list ptr) (c : circuit.t F).

Lemma fold_left_snoc {B C : Type} (g : B -> C -> B) (l : list C) (x : C) (b : B) :
  fold_left g (l ++ [x]) b = g (fold_left g l b) x.
Proof. now rewrite fold_left_app. Qed.

Lemma impedances_snoc h ps p x :
  h !! p = Some x ->
  impedances h (ps ++ [p]) = impedances h ps ++ [components.get_impedance x].
Proof.
  intros Hp. rewrite impedances_app.
  now rewrite (impedances_cons_Some h p [] x Hp).
Qed.

(** X7. Whatever way the members were registered, and whatever
    function the library's complex division is, [set_frequency] stores
    the frequency and leaves as the cached total the reciprocal, by
    that division, of the left-to-right sum of the reciprocals of the
    members' current impedances. *)
Theorem set_frequency_caches_parallel_total h f c :
  valid h (circuit.component_list c) ->
  exists c',
    circuit.set_frequency h f c = Returns c'
    /\ circuit.component_list c' = circuit.component_list c
    /\ circuit.frequency c' = f
    /\ circuit.get_circuit_impedance c'
       = recip (fold_left cadd (recip <$> impedances h (circuit.component_list c))
                  (of_real (of_int 0))).
Proof.
  intros Hv. eexists. split; [apply set_frequency_valid, Hv|]. repeat split.
Qed.

(** X8. The update that runs last decides: [update_impedance_series]
    after [set_frequency], as the series branches of [main] call them,
    leaves the sum of the members' current impedances, and the
    frequency [set_frequency] stored. *)
Theorem update_series_after_set_frequency h f c :
  valid h (circuit.component_list c) ->
  circuit.set_frequency h f c ≫= circuit.update_impedance_series h
  = Returns (circuit.Build (circuit.component_list c)
               (fold_left cadd (impedances h (circuit.component_list c))
                  (of_real (of_int 0)))
               f).
Proof.
  intros Hv. rewrite (set_frequency_valid _ _ _ Hv), bind_Returns.
  now rewrite update_impedance_series_valid.
Qed.

(** X9. Registration appends: after any list of pointers has been
    registered, by either method, [component_list] is the former list
    followed by the new pointers in the order of registration
    (a pointer registered twice is listed twice), and the stored
    frequency is unchanged. *)
Theorem add_all_appends (series : bool) h ps c :
  valid h (circuit.component_list c ++ ps) ->
  exists c',
    circuit.add_all (if series then circuit.add_component_in_series
                     else circuit.add_component_in_parallel) h ps c
    = Returns c'
    /\ circuit.component_list c' = circuit.component_list c ++ ps
    /\ circuit.frequency c' = circuit.frequency c.
Proof.
  intros Hv. destruct ps as [|p ps].
  - exists c. rewrite app_nil_r. repeat split.
  - destruct series.
    + eexists. split.
      * apply (add_all_valid _ series_total); [|exact Hv|discriminate].
        intros q c' Hq. unfold circuit.add_component_in_series.
        now rewrite update_impedance_series_valid.
      * split; reflexivity.
    + eexists. split.
      * apply (add_all_valid _ parallel_total); [|exact Hv|discriminate].
        intros q c' Hq. unfold circuit.add_component_in_parallel.
        now rewrite update_impedance_parallel_valid.
      * split; reflexivity.
Qed.

(** X10. When the cached total is the series total of the members,
    [add_component_in_series], which recomputes the sum from scratch,
    adds the impedance of the new component to the cached total. *)
Theorem add_component_in_series_adds h p x c :
  valid h (circuit.component_list c) ->
  h !! p = Some x ->
  circuit.total_impedance c = series_total h (circuit.component_list c) ->
  exists c',
    circuit.add_component_in_series h p c = Returns c'
    /\ circuit.get_circuit_impedance c'
       = cadd (circuit.get_circuit_impedance c) (components.get_impedance x).
Proof.
  intros Hv Hp Hc. eexists. split.
  - unfold circuit.add_component_in_series.
    apply update_impedance_series_valid. cbn [circuit.component_list].
    apply valid_app. split; [exact Hv|]. repeat constructor. now exists x.
  - cbn [circuit.get_circuit_impedance circuit.total_impedance circuit.component_list].
    unfold circuit.get_circuit_impedance. rewrite Hc. unfold series_total.
    now rewrite (impedances_snoc _ _ _ _ Hp), fold_left_snoc.
Qed.

Lemma series_loop_agree (h h' : heap F) ps total :
  (forall p, p ∈ ps -> h !! p = h' !! p) ->
  circuit.series_loop h ps total = circuit.series_loop h' ps total.
Proof.
  revert total. induction ps as [|p ps IH]; intros total Hag; [reflexivity|].
  cbn [circuit.series_loop]. unfold circuit.deref.
  rewrite <- (Hag p) by apply list_elem_of_here.
  destruct (h !! p) as [x|]; [|reflexivity].
  rewrite !bind_Returns. apply IH.
  intros q Hq. apply Hag. now apply list_elem_of_further.
Qed.

Lemma parallel_loop_agree (h h' : heap F) ps total :
  (forall p, p ∈ ps -> h !! p = h' !! p) ->
  circuit.parallel_loop h ps total = circuit.parallel_loop h' ps total.
Proof.
  revert total. induction ps as [|p ps IH]; intros total Hag; [reflexivity|].
  cbn [circuit.parallel_loop]. unfold circuit.deref.
  rewrite <- (Hag p) by apply list_elem_of_here.
  destruct (h !! p) as [x|]; [|reflexivity].
  rewrite !bind_Returns. apply IH.
  intros q Hq. apply Hag. now apply list_elem_of_further.
Qed.

(** X11. The updates read the registered components and nothing else:
    on two heaps that agree on the pointers of [component_list], both
    updates and [set_frequency] end the same way, with the same total. *)
Theorem updates_read_members_only (h h' : heap F) f c :
  (forall p, p ∈ circuit.component_list c -> h !! p = h' !! p) ->
  circuit.update_impedance_series h c = circuit.update_impedance_series h' c
  /\ circuit.update_impedance_parallel h c = circuit.update_impedance_parallel h' c
  /\ circuit.set_frequency h f c = circuit.set_frequency h' f c.
Proof.
  intros Hag.
  assert (Hs : forall c0, circuit.component_list c0 = circuit.component_list c ->
            circuit.update_impedance_series h c0 = circuit.update_impedance_series h' c0).
  { intros c0 Hl. unfold circuit.update_impedance_series.
    rewrite (series_loop_agree h h'); [reflexivity|now rewrite Hl]. }
  assert (Hp : forall c0, circuit.component_list c0 = circuit.component_list c ->
            circuit.update_impedance_parallel h c0 = circuit.update_impedance_parallel h' c0).
  { intros c0 Hl. unfold circuit.update_impedance_parallel.
    rewrite (parallel_loop_agree h h'); [reflexivity|now rewrite Hl]. }
  split; [now apply Hs|]. split; [now apply Hp|].
  unfold circuit.set_frequency. rewrite Hs by reflexivity.
  destruct (circuit.update_impedance_series h' _) as [c1| |] eqn:E; try reflexivity.
  rewrite !bind_Returns. apply Hp.
  unfold circuit.update_impedance_series in E.
  destruct (circuit.series_loop h' _ _); cbn in E; try discriminate.
  now inversion E.
Qed.

End MoreCircuit.

(** ** Components in binary64 *)

Section MoreBinary64.
Implicit Types (x y f : float) (z : complex float).
Local Open Scope double_scope.

Lemma hypot_zero_r x s : hypot x (S754_zero s) = SFabs x.
Proof. now destruct x. Qed.

Lemma SFabs_nonneg x : nonneg x -> SFabs x = x.
Proof. destruct x; cbn; intros Hx; now subst. Qed.

Lemma cabs_of_real x : cabs (of_real x) = SFabs x.
Proof. unfold cabs, of_real. cbn [real imag]. rewrite b64_zero. apply hypot_zero_r. Qed.

Lemma carg_of_real_pos (libm : float -> float -> float) x :
  b64_lt (of_int 0) x -> carg (A := b64_atan2 libm) (of_real x) = S754_zero false.
Proof. destruct x as [s|s| |s m e]; try destruct s; now cbn. Qed.

(** X3. In binary64 a resistor reports the magnitude [|resistance|]
    whatever calls of [set_frequency] it has received, and the phase
    [+0] when the resistance is positive. *)
Theorem resistor_magnitude_and_phase (libm : float -> float -> float)
    (r : float) (fs : list float) :
  let c := foldr components.set_frequency (components.resistor r) fs in
  components.get_impedance_magnitude c = SFabs r
  /\ (b64_lt (of_int 0) r ->
      components.get_phase_difference (A := b64_atan2 libm) c = S754_zero false).
Proof.
  intros c. destruct (resistor_history r fs) as [Hm Hz]. fold c in Hm, Hz.
  unfold components.get_impedance_magnitude, components.get_phase_difference.
  rewrite Hm, Hz. split; [apply cabs_of_real|apply carg_of_real_pos].
Qed.

(** X4. For every inductor with inductance [L > 0], after
    [set_frequency(f)] with [f > 0], [get_impedance_magnitude()] is
    [2 * pi * f * L] and [get_phase_difference()] is [pi / 2], as the
    doubles these expressions evaluate to. *)
Theorem inductor_magnitude_and_phase (A : Atan2 float) f0 z0 L f :
  b64_lt (of_int 0) L ->
  b64_lt (of_int 0) f ->
  let c := components.set_frequency f (components.Build f0 z0 (components.Inductor L)) in
  components.get_impedance_magnitude c = of_int 2 * pi * f * L
  /\ components.get_phase_difference c = pi / of_int 2.
Proof.
  intros HL Hf c. split; [|reflexivity].
  unfold components.get_impedance_magnitude, cabs.
  cbn [c components.set_frequency components.members components.impedance real imag].
  rewrite b64_zero, hypot_zero_l. apply SFabs_nonneg.
  apply mul_nonneg; [apply mul_nonneg|]; auto using b64_lt_zero_nonneg.
  now rewrite b64_two_pi.
Qed.

Lemma inductor_magnitude_and_phase_witness :
  let c := components.set_frequency kilohertz (components.inductor (of_int 1)) in
  components.get_impedance_magnitude c = of_int 2 * pi * kilohertz * of_int 1
  /\ components.get_phase_difference (A := b64_atan2 (fun _ _ => NaN)) c
     = pi / of_int 2.
Proof.
  apply (inductor_magnitude_and_phase (b64_atan2 (fun _ _ => NaN))
           (of_int 0) _ (of_int 1) kilohertz); reflexivity.
Defined.

(** X5. A capacitor whose capacitance is finite (zero and negative
    values included) has, at frequency 0, that is as constructed and
    after [set_frequency(0)], an infinite imaginary impedance and the
    magnitude [+inf]: the division by zero is silent and gives no NaN. *)
Theorem capacitor_at_zero_frequency_infinite f0 z0 C :
  is_finite C = true ->
  let c := components.set_frequency (of_int 0)
             (components.Build f0 z0 (components.Capacitor C)) in
  components.get_impedance c = components.get_impedance (components.capacitor C)
  /\ real (components.get_impedance c) = S754_zero false
  /\ SFabs (imag (components.get_impedance c)) = S754_infinity false
  /\ components.get_impedance_magnitude c = S754_infinity false
  /\ components.get_impedance_magnitude (components.capacitor C)
     = S754_infinity false.
Proof.
  intros HC c. destruct C as [s|s| |s m e]; try discriminate HC;
    destruct s; repeat split.
Qed.

Lemma capacitor_at_zero_frequency_infinite_witness :
  let c := components.set_frequency (of_int 0) (components.capacitor microfarad) in
  components.get_impedance c = components.get_impedance (components.capacitor microfarad)
  /\ real (components.get_impedance c) = S754_zero false
  /\ SFabs (imag (components.get_impedance c)) = S754_infinity false
  /\ components.get_impedance_magnitude c = S754_infinity false
  /\ components.get_impedance_magnitude (components.capacitor microfarad)
     = S754_infinity false.
Proof.
  apply (capacitor_at_zero_frequency_infinite (of_int 0) _ microfarad).
  reflexivity.
Defined.

(** A diode is constructed with the impedance [0 + j resistance]:
    until [set_frequency] is called its magnitude is [|resistance|],
    for all parameters. *)
Theorem diode_constructed_magnitude (capacitance resistance saturation_current : float) :
  let d := components.diode capacitance resistance saturation_current in
  components.get_impedance d = Complex (S754_zero false) resistance
  /\ components.get_impedance_magnitude d = SFabs resistance
  /\ components.get_frequency d = S754_zero false.
Proof.
  intros d. split; [reflexivity|]. split; [|reflexivity].
  unfold components.get_impedance_magnitude, cabs. cbn [d components.diode
    components.assign_impedance components.impedance real imag].
  rewrite b64_zero. apply hypot_zero_l.
Qed.

(** X6. The transistor's impedance is the quotient of two doubles and
    no zero divisor is rejected: with a collector current of [+0] or
    [-0] its magnitude is [+inf] when the collector-emitter voltage is
    finite and not zero, and NaN when that voltage is zero as well. *)
Theorem transistor_zero_collector_current (cc bc ec cev bev : float) :
  is_zero cc = true ->
  let t := components.transistor cc bc ec cev bev in
  (is_finite cev = true -> is_zero cev = false ->
   components.get_impedance_magnitude t = S754_infinity false)
  /\ (is_zero cev = true -> components.get_impedance_magnitude t = NaN).
Proof.
  intros Hcc t. destruct cc as [s| | |]; try discriminate Hcc.
  split; intros H1; [intros H2|];
    destruct cev as [s'|s'| |s' m e]; try discriminate; reflexivity.
Qed.

Lemma transistor_zero_collector_current_witness :
  let t := components.transistor (of_int 0) (of_int 0) (of_int 0) (of_int 5) (of_int 1) in
  (is_finite (of_int 5) = true -> is_zero (of_int 5) = false ->
   components.get_impedance_magnitude t = S754_infinity false)
  /\ (is_zero (of_int 5) = true -> components.get_impedance_magnitude t = NaN).
Proof.
  apply (transistor_zero_collector_current (of_int 0) (of_int 0) (of_int 0)
           (of_int 5) (of_int 1)).
  reflexivity.
Defined.

End MoreBinary64.

(** ** [main], over any arithmetic *)

Section MoreMain.
Context {F : Type} {D : Double F} {Q : Division F}.
Implicit Types (order : list part) (freq r_value c_value l_value : F).

Lemma address_inj p q : address p = address q -> p = q.
Proof. destruct p, q; cbn; congruence. Qed.

Lemma constructed_lookup r_value c_value l_value order p :
  p ∈ order ->
  constructed r_value c_value l_value order !! address p
  = Some (construct r_value c_value l_value p).
Proof.
  induction order as [|q order IH]; intros Hin.
  - now apply elem_of_nil in Hin.
  - cbn [constructed foldr]. destruct (decide (q = p)) as [->|Hne].
    + apply lookup_insert_eq.
    + rewrite lookup_insert_ne by (intros Hpq; apply Hne, address_inj, Hpq).
      apply IH. apply elem_of_cons in Hin as [Heq|Hin]; [congruence|exact Hin].
Qed.

(** The components as the circuit finds them after the calls of
    [set_frequency(freq)]. *)
Lemma at_frequency_lookup freq r_value c_value l_value order p :
  p ∈ order ->
  (components.set_frequency freq <$> constructed r_value c_value l_value order)
    !! address p
  = Some (components.set_frequency freq (construct r_value c_value l_value p)).
Proof. intros Hin. now rewrite lookup_fmap, (constructed_lookup _ _ _ _ _ Hin). Qed.

Lemma valid_addresses (h : heap F) (g : part -> components.t F) order (l : list part) :
  (forall p, p ∈ order -> h !! address p = Some (g p)) ->
  l ⊆ order ->
  valid h (address <$> l)
  /\ impedances h (address <$> l) = (fun p => components.get_impedance (g p)) <$> l
  /\ omap (fun p => h !! address p) l = g <$> l.
Proof.
  intros Hh. induction l as [|p l IH]; intros Hsub.
  - repeat split. constructor.
  - assert (Hp : h !! address p = Some (g p)) by (apply Hh, Hsub; left).
    destruct IH as (IH1 & IH2 & IH3).
    { intros q Hq. apply Hsub. now right. }
    cbn [fmap list_fmap]. split; [|split].
    + constructor; [now exists (g p)|exact IH1].
    + rewrite (impedances_cons_Some _ _ _ _ Hp). now f_equal.
    + cbn. rewrite Hp. cbn. now f_equal.
Qed.

(** What the core calls of a branch return. *)
Lemma core_calls_eq (series : bool) order freq r_value c_value l_value :
  let at_freq p :=
    components.set_frequency freq (construct r_value c_value l_value p) in
  let zs := (fun p => components.get_impedance (at_freq p)) <$> order in
  core_calls series order freq r_value c_value l_value
  = Returns (circuit.Build (address <$> order)
               (if series then fold_left cadd zs (of_real (of_int 0))
                else recip (fold_left cadd (recip <$> zs) (of_real (of_int 0))))
               freq,
             at_freq <$> order).
Proof.
  intros at_freq zs. unfold core_calls.
  set (h0 := constructed r_value c_value l_value order).
  set (h1 := components.set_frequency freq <$> h0).
  destruct (valid_addresses h0 (construct r_value c_value l_value) order order)
    as (Hv0 & _ & _); [apply constructed_lookup|reflexivity|].
  destruct (valid_addresses h1 at_freq order order) as (Hv1 & Hz1 & Hlib);
    [apply at_frequency_lookup|reflexivity|].
  assert (Hadd : exists total,
    circuit.add_all (if series then circuit.add_component_in_series
                     else circuit.add_component_in_parallel)
      h0 (address <$> order) circuit.new
    = Returns (circuit.Build (address <$> order) total (of_int 0))).
  { destruct (address <$> order) as [|a ptrs] eqn:E.
    - eexists. reflexivity.
    - rewrite <- E in *. destruct series; eexists.
      + now apply add_all_series_new.
      + apply add_all_parallel_new; [exact Hv0|]. rewrite E. discriminate. }
  destruct Hadd as [total ->]. rewrite bind_Returns.
  rewrite set_frequency_valid by exact Hv1. rewrite bind_Returns.
  cbn [circuit.component_list]. rewrite Hlib.
  destruct series.
  - rewrite update_impedance_series_valid by exact Hv1. rewrite bind_Returns.
    cbn [circuit.component_list circuit.frequency].
    unfold series_total. now rewrite Hz1.
  - rewrite bind_Returns. unfold parallel_total. now rewrite Hz1.
Qed.

(** X17. The core calls of a branch of [main] always return.  The
    circuit whose magnitude and phase are printed lists the components
    in the order of registration, holds the frequency read, and its
    total is, for a series branch, the left-to-right sum from 0 of the
    impedances the components have at that frequency and, for a
    parallel branch, the reciprocal of the sum of their reciprocals,
    by whatever function the library's complex division is;
    [component_library] holds the components at that frequency. *)
Theorem core_calls_returns (series : bool) order freq r_value c_value l_value :
  exists c component_library,
    core_calls series order freq r_value c_value l_value
    = Returns (c, component_library)
    /\ circuit.component_list c = address <$> order
    /\ circuit.frequency c = freq
    /\ component_library
       = (fun p => components.set_frequency freq
                     (construct r_value c_value l_value p)) <$> order
    /\ circuit.get_circuit_impedance c
       = if series
         then fold_left cadd (components.get_impedance <$> component_library)
                (of_real (of_int 0))
         else recip (fold_left cadd
                       (recip <$> (components.get_impedance <$> component_library))
                       (of_real (of_int 0))).
Proof.
  do 2 eexists. split; [apply core_calls_eq|]. repeat split.
  cbn [circuit.get_circuit_impedance circuit.total_impedance].
  now rewrite <- !list_fmap_compose.
Qed.

(** [main] returns 0 for every input: no call of the core throws,
    so the [catch] block is never entered; and for every value of
    [circuit_type] from 1 to 8 it prints a report with one line
    per component of the branch. *)
Theorem main_core_exit_code {A : Atan2 F} (circuit_type : Z)
    freq r_value c_value l_value :
  exit_code (main_core circuit_type freq r_value c_value l_value) = Some 0%Z
  /\ ((1 <= circuit_type <= 8)%Z ->
      exists series order rep,
        topology circuit_type = Some (series, order)
        /\ main_core circuit_type freq r_value c_value l_value = Returns (Some rep)
        /\ length (lines rep) = length order
        /\ (2 <= length order <= 3)%nat).
Proof.
  unfold main_core. split.
  - destruct (topology circuit_type) as [[series order]|]; [|reflexivity].
    now rewrite core_calls_eq.
  - intros Hrange.
    assert (Hcases : (circuit_type = 1 \/ circuit_type = 2 \/ circuit_type = 3
              \/ circuit_type = 4 \/ circuit_type = 5 \/ circuit_type = 6
              \/ circuit_type = 7 \/ circuit_type = 8)%Z) by lia.
    repeat (destruct Hcases as [->|Hcases]); try subst circuit_type;
      cbn [topology]; do 3 eexists; (split; [reflexivity|]);
      rewrite core_calls_eq, bind_Returns; (split; [reflexivity|]);
      cbn; lia.
Qed.

End MoreMain.

(** ** Parallel and series combination over exact arithmetic, continued *)

Section MoreExact.
Implicit Types (h : heap R) (z : complex R) (zs : list (complex R)).
Local Open Scope R_scope.

Lemma cinv_nonzero z : z <> Complex 0 0 -> cinv z <> Complex 0 0.
Proof.
  intros Hz Hc. pose proof (cinv_spec z Hz) as Hs. rewrite Hc in Hs.
  unfold cmul in Hs. cbn in Hs. injection Hs as Hs _. lra.
Qed.

Lemma cinv_involutive z : z <> Complex 0 0 -> cinv (cinv z) = z.
Proof.
  intros Hz. pose proof (norm_nonzero z Hz) as Hn.
  destruct z as [a b]. cbn in Hn. unfold cinv. cbn [real imag].
  f_equal; field; repeat split; first [exact Hn | nra].
Qed.

Lemma csum_snoc zs z : csum (zs ++ [z]) = cadd (csum zs) z.
Proof.
  induction zs as [|w zs IH].
  - apply complex_eq; cbn; lra.
  - cbn [app]. rewrite !csum_cons, IH. apply complex_eq; cbn; lra.
Qed.

Lemma pi_pos : (0 < pi)%R.
Proof. cbn. lra. Qed.

(** X12. One component of nonzero impedance registered in parallel:
    the total is the impedance of that component. *)
Theorem parallel_single_component h p x :
  h !! p = Some x ->
  components.get_impedance x <> Complex 0 0 ->
  exists c,
    circuit.add_component_in_parallel h p circuit.new = Returns c
    /\ circuit.get_circuit_impedance c = components.get_impedance x.
Proof.
  intros Hp Hz. eexists. split.
  - unfold circuit.add_component_in_parallel.
    apply update_impedance_parallel_valid. repeat constructor. now exists x.
  - cbn [circuit.get_circuit_impedance circuit.total_impedance
         circuit.component_list circuit.new app].
    rewrite parallel_total_exact, (impedances_cons_Some _ _ _ _ Hp).
    replace (csum (cinv <$> components.get_impedance x :: impedances h []))
      with (cinv (components.get_impedance x))
      by (apply complex_eq; cbn; lra).
    now apply cinv_involutive.
Qed.

(** X13. Admittances add in parallel: when the cached total is the
    parallel total of the members, registering one more component makes
    the inverse of the total the former inverse plus the inverse of the
    new impedance, where no impedance is zero and the sums of inverses
    involved are not zero. *)
Theorem add_component_in_parallel_adds_admittance h p x c :
  valid h (circuit.component_list c) ->
  h !! p = Some x ->
  Forall (fun z => z <> Complex 0 0) (impedances h (circuit.component_list c)) ->
  components.get_impedance x <> Complex 0 0 ->
  circuit.total_impedance c = parallel_total h (circuit.component_list c) ->
  csum (cinv <$> impedances h (circuit.component_list c)) <> Complex 0 0 ->
  cadd (csum (cinv <$> impedances h (circuit.component_list c)))
       (cinv (components.get_impedance x)) <> Complex 0 0 ->
  exists c',
    circuit.add_component_in_parallel h p c = Returns c'
    /\ cinv (circuit.get_circuit_impedance c')
       = cadd (cinv (circuit.get_circuit_impedance c))
              (cinv (components.get_impedance x)).
Proof.
  intros Hv Hp _ _ Hc HY HY'. eexists. split.
  - unfold circuit.add_component_in_parallel.
    apply update_impedance_parallel_valid. cbn [circuit.component_list].
    apply valid_app. split; [exact Hv|]. repeat constructor. now exists x.
  - cbn [circuit.get_circuit_impedance circuit.total_impedance
         circuit.component_list].
    unfold circuit.get_circuit_impedance. rewrite Hc, !parallel_total_exact.
    rewrite (impedances_snoc _ _ _ _ Hp), fmap_app. cbn [fmap list_fmap].
    rewrite csum_snoc.
    rewrite (cinv_involutive _ HY'). now rewrite (cinv_involutive _ HY).
Qed.

(** X14. Two resistors in parallel: the product of the resistances
    over their sum. *)
Theorem parallel_resistors_product_over_sum h p q (R1 R2 : R) x y :
  h !! p = Some x -> h !! q = Some y ->
  components.get_impedance x = of_real R1 ->
  components.get_impedance y = of_real R2 ->
  R1 <> 0 -> R2 <> 0 -> R1 + R2 <> 0 ->
  exists c,
    circuit.add_all circuit.add_component_in_parallel h [p; q] circuit.new
    = Returns c
    /\ circuit.get_circuit_impedance c = of_real (R1 * R2 / (R1 + R2)).
Proof.
  intros Hp Hq Hx Hy H1 H2 H12. eexists. split.
  - apply add_all_parallel_new; [|discriminate].
    repeat constructor; eexists; eassumption.
  - cbn [circuit.get_circuit_impedance circuit.total_impedance].
    rewrite parallel_total_exact.
    rewrite (impedances_cons_Some _ _ _ _ Hp), (impedances_cons_Some _ _ _ _ Hq).
    rewrite Hx, Hy. apply complex_eq; cbn; field; repeat split; try lra; nra.
Qed.

End MoreExact.

(** ** [main] in binary64 *)

Section MainBinary64.
Implicit Types (order : list part) (freq r_value c_value l_value : float).
Local Open Scope double_scope.

Lemma line_at_frequency (libm : float -> float -> float)
    freq r_value c_value l_value p :
  b64_lt (of_int 0) freq -> b64_lt (of_int 0) r_value ->
  b64_lt (of_int 0) c_value -> b64_lt (of_int 0) l_value ->
  let x := components.set_frequency freq (construct r_value c_value l_value p) in
  (components.get_type x, components.get_impedance_magnitude x,
   components.get_phase_difference (A := b64_atan2 libm) x)
  = line_of freq r_value c_value l_value p.
Proof.
  intros Hf Hr Hc Hl x.
  assert (Hx : forall y, b64_lt (of_int 0) y -> nonneg (of_int 2 * pi * freq * y)).
  { intros y Hy. apply mul_nonneg; [apply mul_nonneg|];
      auto using b64_lt_zero_nonneg. now rewrite b64_two_pi. }
  destruct p; subst x; unfold line_of; repeat f_equal.
  - change (cabs (of_real r_value) = r_value).
    rewrite cabs_of_real. now apply SFabs_nonneg, b64_lt_zero_nonneg.
  - now apply (carg_of_real_pos libm).
  - change (hypot (of_int 0) ((- of_int 1) / (of_int 2 * pi * freq * c_value))
            = of_int 1 / (of_int 2 * pi * freq * c_value)).
    rewrite b64_zero, hypot_zero_l. now apply abs_neg_recip, Hx.
  - change (hypot (of_int 0) (of_int 2 * pi * freq * l_value)
            = of_int 2 * pi * freq * l_value).
    rewrite b64_zero, hypot_zero_l. now apply SFabs_nonneg, Hx.
Qed.

(** X18. With a positive frequency and positive component values,
    every branch of [main] prints, in the order of registration, for
    the resistor its resistance and the phase 0, for the capacitor
    [1 / (2 pi f C)] and [-pi / 2], for the inductor [2 pi f L] and
    [pi / 2]. *)
Theorem main_component_lines (libm : float -> float -> float)
    (circuit_type : Z) (series : bool) order freq r_value c_value l_value :
  topology circuit_type = Some (series, order) ->
  b64_lt (of_int 0) freq -> b64_lt (of_int 0) r_value ->
  b64_lt (of_int 0) c_value -> b64_lt (of_int 0) l_value ->
  exists rep,
    main_core (A := b64_atan2 libm) circuit_type freq r_value c_value l_value
    = Returns (Some rep)
    /\ lines rep = line_of freq r_value c_value l_value <$> order.
Proof.
  intros Ht Hf Hr Hc Hl. unfold main_core. rewrite Ht, core_calls_eq, bind_Returns.
  eexists. split; [reflexivity|].
  cbn [print lines snd]. rewrite <- list_fmap_compose.
  apply list_fmap_ext. intros _ p _. cbn [compose].
  now apply line_at_frequency.
Qed.

Lemma main_component_lines_witness :
  exists rep,
    main_core (A := b64_atan2 (fun _ _ => NaN)) 5 kilohertz (of_int 100)
      microfarad (of_int 1)
    = Returns (Some rep)
    /\ lines rep
       = line_of kilohertz (of_int 100) microfarad (of_int 1)
           <$> [part_r; part_c].
Proof.
  apply (main_component_lines (fun _ _ => NaN) 5 true [part_r; part_c]);
    reflexivity.
Defined.





End MainBinary64.

(** ** [main] over exact arithmetic *)

Section MainExact.
Implicit Types (freq r_value c_value l_value : R).
Local Open Scope R_scope.

Lemma series_total_of_branch order freq r_value c_value l_value :
  exists c lib,
    core_calls true order freq r_value c_value l_value = Returns (c, lib)
    /\ circuit.get_circuit_impedance c
       = csum ((fun p => components.get_impedance
                  (components.set_frequency freq
                     (construct r_value c_value l_value p))) <$> order).
Proof.
  do 2 eexists. split; [apply core_calls_eq|].
  cbn [circuit.get_circuit_impedance circuit.total_impedance].
  rewrite fold_left_cadd_exact. apply complex_eq; cbn; lra.
Qed.

Lemma parallel_total_of_branch order freq r_value c_value l_value :
  exists c lib,
    core_calls false order freq r_value c_value l_value = Returns (c, lib)
    /\ circuit.get_circuit_impedance c
       = cinv (csum ((fun p => cinv (components.get_impedance
                  (components.set_frequency freq
                     (construct r_value c_value l_value p)))) <$> order)).
Proof.
  do 2 eexists. split; [apply core_calls_eq|].
  cbn [circuit.get_circuit_impedance circuit.total_impedance].
  rewrite recip_exact, fold_left_cadd_exact. f_equal.
  rewrite <- list_fmap_compose.
  erewrite list_fmap_ext; [|intros _ p _; apply recip_exact].
  apply complex_eq; cbn; lra.
Qed.

(** X20. The series branches of [main] over exact arithmetic, for a
    positive frequency and a capacitance that is not zero: the total is
    [R + j (X_L - X_C)], with the terms of the components the branch
    has, and the magnitude printed for the series RLC circuit is
    [sqrt (R² + (X_L - X_C)²)]. *)
Theorem main_series_closed_form freq r_value c_value l_value :
  0 < freq -> c_value <> 0 ->
  let total circuit_type :=
    match topology circuit_type with
    | Some (series, order) =>
        match core_calls series order freq r_value c_value l_value with
        | Returns (c, _) => Some (circuit.get_circuit_impedance c)
        | _ => None
        end
    | None => None
    end in
  total 2%Z = Some (Complex r_value (X_L freq l_value - X_C freq c_value))
  /\ total 3%Z = Some (Complex r_value (X_L freq l_value))
  /\ total 5%Z = Some (Complex r_value (- X_C freq c_value))
  /\ total 7%Z = Some (Complex 0 (X_L freq l_value - X_C freq c_value))
  /\ cabs (Complex r_value (X_L freq l_value - X_C freq c_value))
     = sqrt (r_value * r_value
             + (X_L freq l_value - X_C freq c_value)
               * (X_L freq l_value - X_C freq c_value)).
Proof.
  intros Hf Hc total. subst total. cbn [topology].
  repeat split.
  all: match goal with
       | |- context [core_calls true ?o _ _ _ _] =>
           destruct (series_total_of_branch o freq r_value c_value l_value)
             as (c & lib & -> & ->)
       end.
  all: f_equal; apply complex_eq; unfold X_L, X_C; cbn; lra.
Qed.

Lemma main_series_closed_form_witness :
  let total circuit_type :=
    match topology circuit_type with
    | Some (series, order) =>
        match core_calls series order 50 3 2 1 with
        | Returns (c, _) => Some (circuit.get_circuit_impedance c)
        | _ => None
        end
    | None => None
    end in
  total 2%Z = Some (Complex 3 (X_L 50 1 - X_C 50 2))
  /\ total 3%Z = Some (Complex 3 (X_L 50 1))
  /\ total 5%Z = Some (Complex 3 (- X_C 50 2))
  /\ total 7%Z = Some (Complex 0 (X_L 50 1 - X_C 50 2))
  /\ cabs (Complex 3 (X_L 50 1 - X_C 50 2))
     = sqrt (3 * 3 + (X_L 50 1 - X_C 50 2) * (X_L 50 1 - X_C 50 2)).
Proof. apply (main_series_closed_form 50 3 2 1); lra. Defined.

End MainExact.

Section MainExactParallel.
Implicit Types (freq r_value c_value l_value : R).
Local Open Scope R_scope.

Lemma admittance_of_part freq r_value c_value l_value p :
  0 < freq -> r_value <> 0 -> c_value <> 0 -> l_value <> 0 ->
  cinv (components.get_impedance
          (components.set_frequency freq (construct r_value c_value l_value p)))
  = match p with
    | part_r => Complex (1 / r_value) 0
    | part_c => Complex 0 (B_C freq c_value)
    | part_l => Complex 0 (- (1 / X_L freq l_value))
    end.
Proof.
  intros Hf Hr Hc Hl. pose proof pi_pos as Hpi. cbn in Hpi.
  destruct p; apply complex_eq; unfold B_C, X_L; cbn; field;
    repeat split; lra.
Qed.

(** X21. The parallel branches of [main] over exact arithmetic, for a
    positive frequency and component values that are not zero: the
    total is the inverse of the admittance [1/R + j (2 pi f C - 1/X_L)],
    with the terms of the components the branch has, and for the
    inductor and capacitor alone away from resonance, where that
    admittance is not zero; for a resistor and an inductor the total is
    [R X_L (X_L + j R) / (R² + X_L²)]. *)
Theorem main_parallel_closed_form freq r_value c_value l_value :
  0 < freq -> r_value <> 0 -> c_value <> 0 -> l_value <> 0 ->
  let total circuit_type :=
    match topology circuit_type with
    | Some (series, order) =>
        match core_calls series order freq r_value c_value l_value with
        | Returns (c, _) => Some (circuit.get_circuit_impedance c)
        | _ => None
        end
    | None => None
    end in
  total 1%Z
  = Some (cinv (Complex (1 / r_value) (B_C freq c_value - 1 / X_L freq l_value)))
  /\ total 4%Z = Some (cinv (Complex (1 / r_value) (- (1 / X_L freq l_value))))
  /\ total 6%Z = Some (cinv (Complex (1 / r_value) (B_C freq c_value)))
  /\ (B_C freq c_value - 1 / X_L freq l_value <> 0 ->
      total 8%Z
      = Some (cinv (Complex 0 (B_C freq c_value - 1 / X_L freq l_value))))
  /\ total 4%Z
     = Some (Complex
               (r_value * (X_L freq l_value * X_L freq l_value)
                / (r_value * r_value + X_L freq l_value * X_L freq l_value))
               (r_value * r_value * X_L freq l_value
                / (r_value * r_value + X_L freq l_value * X_L freq l_value))).
Proof.
  intros Hf Hr Hc Hl total. subst total. cbn [topology].
  pose proof (admittance_of_part freq r_value c_value l_value part_r Hf Hr Hc Hl) as Yr.
  pose proof (admittance_of_part freq r_value c_value l_value part_c Hf Hr Hc Hl) as Yc.
  pose proof (admittance_of_part freq r_value c_value l_value part_l Hf Hr Hc Hl) as Yl.
  cbn beta iota in Yr, Yc, Yl.
  assert (HX : X_L freq l_value <> 0).
  { pose proof pi_pos as Hpi. cbn in Hpi. unfold X_L. cbn.
    intros H0. apply Rmult_integral in H0 as [H0|H0]; [|lra].
    assert (0 < 2 * 3.14159265358979323846 * freq)
      by (apply Rmult_lt_0_compat; lra).
    lra. }
  repeat split; try intros Hres.
  all: match goal with
       | |- context [core_calls false ?o _ _ _ _] =>
           destruct (parallel_total_of_branch o freq r_value c_value l_value)
             as (c & lib & -> & ->)
       end.
  all: cbn [fmap list_fmap]; rewrite ?Yr, ?Yc, ?Yl; f_equal.
  1-4: f_equal; apply complex_eq; cbn; lra.
  apply complex_eq; cbn; field; repeat split; first [exact Hr | exact HX | nra].
Qed.

Lemma main_parallel_closed_form_witness :
  let total circuit_type :=
    match topology circuit_type with
    | Some (series, order) =>
        match core_calls series order 50 3 2 1 with
        | Returns (c, _) => Some (circuit.get_circuit_impedance c)
        | _ => None
        end
    | None => None
    end in
  total 1%Z = Some (cinv (Complex (1 / 3) (B_C 50 2 - 1 / X_L 50 1)))
  /\ total 4%Z = Some (cinv (Complex (1 / 3) (- (1 / X_L 50 1))))
  /\ total 6%Z = Some (cinv (Complex (1 / 3) (B_C 50 2)))
  /\ (B_C 50 2 - 1 / X_L 50 1 <> 0 ->
      total 8%Z = Some (cinv (Complex 0 (B_C 50 2 - 1 / X_L 50 1))))
  /\ total 4%Z
     = Some (Complex
               (3 * (X_L 50 1 * X_L 50 1) / (3 * 3 + X_L 50 1 * X_L 50 1))
               (3 * 3 * X_L 50 1 / (3 * 3 + X_L 50 1 * X_L 50 1))).
Proof. apply (main_parallel_closed_form 50 3 2 1); lra. Defined.

End MainExactParallel.

(** ** More on the totals *)

Section MoreTotals.
Local Open Scope R_scope.

(** X15. Over exact arithmetic the total of a parallel registration
    does not depend on the order in which the components are
    registered. *)
Theorem parallel_total_order_invariant (h : heap R) ps ps' :
  valid h ps -> ps ≡ₚ ps' ->
  exists c c',
    circuit.add_all circuit.add_component_in_parallel h ps circuit.new = Returns c
    /\ circuit.add_all circuit.add_component_in_parallel h ps' circuit.new
       = Returns c'
    /\ circuit.get_circuit_impedance c' = circuit.get_circuit_impedance c.
Proof.
  intros Hv Hp. destruct ps as [|p ps].
  - apply Permutation_nil in Hp. subst ps'.
    exists circuit.new, circuit.new. repeat split.
  - destruct ps' as [|p' ps'].
    { symmetry in Hp. now apply Permutation_nil_cons in Hp. }
    do 2 eexists. split; [apply add_all_parallel_new; [exact Hv|discriminate]|].
    split.
    + apply add_all_parallel_new; [|discriminate].
      exact (valid_Permutation _ _ _ Hp Hv).
    + cbn [circuit.get_circuit_impedance circuit.total_impedance].
      rewrite !parallel_total_exact. f_equal. apply csum_Permutation.
      apply fmap_Permutation. symmetry. now apply impedances_Permutation.
Qed.

Lemma parallel_total_order_invariant_witness :
  exists c c',
    circuit.add_all circuit.add_component_in_parallel resistor_and_inductor_exact
      [1%nat; 2%nat] circuit.new = Returns c
    /\ circuit.add_all circuit.add_component_in_parallel
         resistor_and_inductor_exact [2%nat; 1%nat] circuit.new = Returns c'
    /\ circuit.get_circuit_impedance c' = circuit.get_circuit_impedance c.
Proof.
  apply (parallel_total_order_invariant resistor_and_inductor_exact
           [1%nat; 2%nat] [2%nat; 1%nat]).
  - repeat constructor; eexists; reflexivity.
  - apply perm_swap.
Defined.

(** X16. In binary64 a diode on which [set_frequency] has been called
    makes the total of every circuit that lists it NaN in both parts,
    whichever update computes it. *)
Theorem diode_member_makes_total_nan (h : heap float) (c : circuit.t float)
    p f0 z0 (capacitance resistance saturation_current f f' : float) :
  valid h (circuit.component_list c) ->
  p ∈ circuit.component_list c ->
  h !! p = Some (components.set_frequency f
                   (components.Build f0 z0
                      (components.Diode capacitance resistance saturation_current))) ->
  circuit.update_impedance_series h c
  = Returns (circuit.Build (circuit.component_list c) (Complex NaN NaN)
               (circuit.frequency c))
  /\ circuit.update_impedance_parallel h c
     = Returns (circuit.Build (circuit.component_list c) (Complex NaN NaN)
                  (circuit.frequency c))
  /\ circuit.set_frequency h f' c
     = Returns (circuit.Build (circuit.component_list c) (Complex NaN NaN) f').
Proof.
  intros Hv Hin Hp.
  pose proof (elem_of_impedances _ _ _ _ Hin Hp) as Hz.
  change (components.get_impedance _)
    with (components.diode_impedance capacitance resistance saturation_current f)
    in Hz.
  rewrite diode_impedance_nan in Hz.
  assert (Hs : series_total h (circuit.component_list c) = Complex NaN NaN)
    by (unfold series_total; now apply fold_left_cadd_nan).
  assert (Hpar : parallel_total h (circuit.component_list c) = Complex NaN NaN).
  { unfold parallel_total. rewrite fold_left_cadd_nan; [apply recip_nan|].
    rewrite <- recip_nan. now apply list_elem_of_fmap_2. }
  rewrite update_impedance_series_valid, update_impedance_parallel_valid,
    set_frequency_valid by exact Hv.
  now rewrite Hs, Hpar.
Qed.

Lemma diode_member_makes_total_nan_witness :
  let d := components.set_frequency kilohertz
             (components.Build (of_int 0) (Complex (of_int 0) (of_int 2))
                (components.Diode (of_int 1) (of_int 2) (of_int 3))) in
  let h : heap float := <[1%nat := d]> ∅ in
  let c := circuit.Build [1%nat] (of_real (of_int 0)) (of_int 0) in
  circuit.update_impedance_series h c
  = Returns (circuit.Build [1%nat] (Complex NaN NaN) (of_int 0))
  /\ circuit.update_impedance_parallel h c
     = Returns (circuit.Build [1%nat] (Complex NaN NaN) (of_int 0))
  /\ circuit.set_frequency h kilohertz c
     = Returns (circuit.Build [1%nat] (Complex NaN NaN) kilohertz).
Proof.
  intros d h c.
  apply (diode_member_makes_total_nan h c 1%nat (of_int 0)
           (Complex (of_int 0) (of_int 2)) (of_int 1) (of_int 2) (of_int 3)
           kilohertz kilohertz).
  - repeat constructor; eexists; reflexivity.
  - repeat constructor.
  - reflexivity.
Defined.

End MoreTotals.

(** ** Instances of the further properties *)

Lemma set_frequency_caches_parallel_total_witness :
  exists c',
    circuit.set_frequency two_resistors kilohertz
      (circuit.Build [1%nat; 2%nat] (of_real (of_int 2)) (of_int 0)) = Returns c'
    /\ circuit.component_list c' = [1%nat; 2%nat]
    /\ circuit.frequency c' = kilohertz
    /\ circuit.get_circuit_impedance c'
       = recip (fold_left cadd (recip <$> impedances two_resistors [1%nat; 2%nat])
                  (of_real (of_int 0))).
Proof.
  apply (set_frequency_caches_parallel_total two_resistors kilohertz
           (circuit.Build [1%nat; 2%nat] (of_real (of_int 2)) (of_int 0))).
  repeat constructor; eexists; reflexivity.
Defined.

Lemma update_series_after_set_frequency_witness :
  circuit.set_frequency two_resistors kilohertz
    (circuit.Build [1%nat; 2%nat] (of_real (of_int 2)) (of_int 0))
    ≫= circuit.update_impedance_series two_resistors
  = Returns (circuit.Build [1%nat; 2%nat]
               (fold_left cadd (impedances two_resistors [1%nat; 2%nat])
                  (of_real (of_int 0)))
               kilohertz).
Proof.
  apply (update_series_after_set_frequency two_resistors kilohertz
           (circuit.Build [1%nat; 2%nat] (of_real (of_int 2)) (of_int 0))).
  repeat constructor; eexists; reflexivity.
Defined.

Lemma add_all_appends_witness :
  exists c',
    circuit.add_all circuit.add_component_in_series two_resistors
      [2%nat; 1%nat; 2%nat]
      (circuit.Build [1%nat] (of_real (of_int 1)) kilohertz)
    = Returns c'
    /\ circuit.component_list c' = [1%nat] ++ [2%nat; 1%nat; 2%nat]
    /\ circuit.frequency c' = kilohertz.
Proof.
  apply (add_all_appends true two_resistors [2%nat; 1%nat; 2%nat]
           (circuit.Build [1%nat] (of_real (of_int 1)) kilohertz)).
  repeat constructor; eexists; reflexivity.
Defined.

Lemma add_component_in_series_adds_witness :
  exists c',
    circuit.add_component_in_series two_resistors 2%nat
      (circuit.Build [1%nat] (series_total two_resistors [1%nat]) (of_int 0))
    = Returns c'
    /\ circuit.get_circuit_impedance c'
       = cadd (series_total two_resistors [1%nat])
              (components.get_impedance (components.resistor (of_int 1))).
Proof.
  apply (add_component_in_series_adds two_resistors 2%nat
           (components.resistor (of_int 1))
           (circuit.Build [1%nat] (series_total two_resistors [1%nat]) (of_int 0))).
  - repeat constructor; eexists; reflexivity.
  - reflexivity.
  - reflexivity.
Defined.

Lemma updates_read_members_only_witness :
  let h' : heap float := <[3%nat := inductor_at_rest]> two_resistors in
  let c := circuit.Build [1%nat; 2%nat] (of_real (of_int 0)) (of_int 0) in
  circuit.update_impedance_series two_resistors c
  = circuit.update_impedance_series h' c
  /\ circuit.update_impedance_parallel two_resistors c
     = circuit.update_impedance_parallel h' c
  /\ circuit.set_frequency two_resistors kilohertz c
     = circuit.set_frequency h' kilohertz c.
Proof.
  intros h' c.
  apply (updates_read_members_only two_resistors h' kilohertz c).
  intros p Hp. cbn in Hp.
  apply elem_of_cons in Hp as [->|Hp]; [reflexivity|].
  apply elem_of_cons in Hp as [->|Hp]; [reflexivity|].
  now apply elem_of_nil in Hp.
Defined.

Lemma parallel_single_component_witness :
  exists c,
    circuit.add_component_in_parallel two_resistors_exact 1%nat circuit.new
    = Returns c
    /\ circuit.get_circuit_impedance c
       = components.get_impedance (components.resistor 3%R).
Proof.
  apply (parallel_single_component two_resistors_exact 1%nat
           (components.resistor 3%R)).
  - reflexivity.
  - intros Hz. injection Hz. lra.
Defined.

Lemma add_component_in_parallel_adds_admittance_witness :
  let c := circuit.Build [1%nat] (parallel_total two_resistors_exact [1%nat]) 0%R in
  exists c',
    circuit.add_component_in_parallel two_resistors_exact 2%nat c = Returns c'
    /\ cinv (circuit.get_circuit_impedance c')
       = cadd (cinv (circuit.get_circuit_impedance c))
              (cinv (components.get_impedance (components.resistor 3%R))).
Proof.
  intros c.
  apply (add_component_in_parallel_adds_admittance two_resistors_exact 2%nat
           (components.resistor 3%R) c).
  - repeat constructor; eexists; reflexivity.
  - reflexivity.
  - change (impedances two_resistors_exact (circuit.component_list c))
      with [Complex 3%R 0%R].
    repeat constructor. intros Hz. injection Hz. lra.
  - intros Hz. injection Hz. lra.
  - reflexivity.
  - change (impedances two_resistors_exact (circuit.component_list c))
      with [Complex 3%R 0%R].
    intros Hz. injection Hz. cbn. lra.
  - change (impedances two_resistors_exact (circuit.component_list c))
      with [Complex 3%R 0%R].
    intros Hz. injection Hz. cbn. lra.
Defined.

Lemma parallel_resistors_product_over_sum_witness :
  exists c,
    circuit.add_all circuit.add_component_in_parallel two_resistors_exact
      [1%nat; 2%nat] circuit.new = Returns c
    /\ circuit.get_circuit_impedance c = of_real (3 * 3 / (3 + 3))%R.
Proof.
  apply (parallel_resistors_product_over_sum two_resistors_exact 1%nat 2%nat
           3%R 3%R (components.resistor 3%R) (components.resistor 3%R));
    try reflexivity; lra.
Defined.
